(** * llm-fid-txt: the upstream-fetch layer of the Farcaster text API

    A shallow embedding of the server code (the bounded cache, the batch
    processor, the request queue with its circuit breaker, the retrying
    fetch, the paginated cast retrieval and the streaming handler) and the
    properties checked against it.  Times are milliseconds in [Z]; JS
    arrays are lists; the insertion-ordered JS [Map] of the cache is an
    association list, the per-endpoint maps of the request queue are
    [gmap string Z]. *)

From stdpp Require Import gmap strings list pretty.
From Stdlib Require Import ZArith Lia Ascii.

#[local] Open Scope Z_scope.

(** ** Configuration constants *)

Module Config.

Definition API_TIMEOUT : Z := 10000.
Definition FARCASTER_EPOCH : Z := 1609459200000.

Definition STALE_WHILE_REVALIDATE : Z := 5 * 60 * 1000.
Definition MAX_CACHE_ITEMS : Z := 1000.
Definition MAX_CACHE_SIZE : Z := 5 * 1024 * 1024.

Definition MAX_RETRIES : Z := 3.
Definition INITIAL_RETRY_DELAY : Z := 1000.

Definition failureThreshold : Z := 5.
Definition resetTimeout : Z := 30000.
Definition halfOpenTimeout : Z := 10000.

Definition MAX_BATCH_SIZE : nat := 50.

End Config.

(** ** CacheManager *)

Module CacheManager.
Import Config.

Section cache.
(** The payload type is left open; [jsonLength d] is
    [JSON.stringify(d).length] and [generateETag d] the SHA-256 digest
    of the serialization. *)
Context {V : Type}.
Variable jsonLength : V -> Z.
Variable generateETag : V -> string.

Record entry := Entry { data : V; timestamp : Z; etag : string }.

(** [cache] is the JS [Map] in insertion order, [size] the running
    total-size counter. *)
Record t := Cache { cache : list (string * entry); size : Z }.

Definition empty : t := Cache [] 0.

(** [Map.prototype.get], [set] (an existing key keeps its position) and
    [delete]. *)
Fixpoint map_get (k : string) (m : list (string * entry)) : option entry :=
  match m with
  | [] => None
  | (k', e) :: m' => if decide (k = k') then Some e else map_get k m'
  end.

Fixpoint map_set (k : string) (e : entry) (m : list (string * entry))
  : list (string * entry) :=
  match m with
  | [] => [(k, e)]
  | (k', e') :: m' =>
      if decide (k = k') then (k, e) :: m' else (k', e') :: map_set k e m'
  end.

Definition map_delete (k : string) (m : list (string * entry))
  : list (string * entry) :=
  filter (λ p, p.1 ≠ k) m.

(** [entries.sort(([, a], [, b]) => a.timestamp - b.timestamp)]: a stable
    sort, ties stay in [Map] order. *)
Fixpoint insert_by_timestamp (p : string * entry) (l : list (string * entry))
  : list (string * entry) :=
  match l with
  | [] => [p]
  | q :: l' =>
      if timestamp p.2 <=? timestamp q.2 then p :: q :: l'
      else q :: insert_by_timestamp p l'
  end.

Definition sort_by_timestamp (l : list (string * entry)) : list (string * entry) :=
  foldr insert_by_timestamp [] l.

(** [oldest p l]: no entry of [l] is older than [p]. *)
Definition oldest (p : string * entry) (l : list (string * entry)) : Prop :=
  Forall (λ q, timestamp p.2 <= timestamp q.2) l.

(** [get(key, ttl)] at time [now]: the answer and the cache afterwards. *)
Definition get (c : t) (key : string) (ttl now : Z) : option (V * bool) * t :=
  match map_get key (cache c) with
  | None => (None, c)
  | Some cached =>
      let age := now - timestamp cached in
      if ttl + STALE_WHILE_REVALIDATE <? age then
        (None, Cache (map_delete key (cache c)) (size c - jsonLength (data cached)))
      else (Some (data cached, ttl <? age), c)
  end.

(** The guard of the eviction loop of [set]. *)
Definition must_evict (c : t) (sz : Z) : bool :=
  (MAX_CACHE_SIZE <? size c + sz) || (MAX_CACHE_ITEMS <=? Z.of_nat (length (cache c))).

(** The eviction loop; every iteration deletes one entry, so [fuel] is
    the number of entries (see [evict_exit]). *)
Fixpoint evict (fuel : nat) (sz : Z) (c : t) : t :=
  match fuel with
  | O => c
  | S fuel' =>
      if must_evict c sz then
        match sort_by_timestamp (cache c) with
        | [] => c
        | (oldestKey, _) :: _ =>
            match map_get oldestKey (cache c) with
            | None => c
            | Some evicted =>
                evict fuel' sz
                  (Cache (map_delete oldestKey (cache c))
                         (size c - jsonLength (data evicted)))
            end
        end
      else c
  end.

(** [set(key, data, ttl)] at time [now]. *)
Definition set (c : t) (key : string) (d : V) (ttl now : Z) : t :=
  let sz := jsonLength d in
  let c1 := evict (length (cache c)) sz c in
  Cache (map_set key (Entry d now (generateETag d)) (cache c1)) (size c1 + sz).

End cache.

Arguments entry : clear implicits.
Arguments t : clear implicits.

End CacheManager.

(** ** BatchProcessor *)

Module BatchProcessor.
Import Config.

Section batch.
Context {T : Type}.

(** How a promise settles. *)
Inductive outcome := Fulfilled (v : T) | Rejected (e : string).

(** A queued [{ key, resolve, reject }]: [resolve] and [reject] belong to
    the promise that the [add] call returned, named by its index. *)
Record item := Item { key : string; promise : nat }.

(** The fields of the class, the promises handed out so far ([None] while
    pending), the callers suspended at [await this.process()] inside
    [add], and two logs: the [fetchFn()] calls and the
    [processSingleItem(key)] calls. *)
Record t := State {
  queue : list item;
  processing : bool;
  timer : bool;
  promises : list (option outcome);
  blocked : list string;
  invoked : list (string * nat);
  processed : list (string * nat)
}.

Definition init : t := State [] false false [] [] [] [].

(** [resolve(v)] or [reject(e)] on promise [p]: only the first call has an
    effect. *)
Definition settle (s : t) (p : nat) (o : outcome) : t :=
  match promises s !! p with
  | Some None =>
      State (queue s) (processing s) (timer s) (<[p := Some o]> (promises s))
            (blocked s) (invoked s) (processed s)
  | _ => s
  end.

(** [process()] up to its [await]: the whole queue is taken as the current
    batch and [processSingleItem] is started for each of its items. *)
Definition process (s : t) : t :=
  if processing s || bool_decide (queue s = []) then s
  else State [] true false (promises s) (blocked s) (invoked s)
             (processed s ++ map (λ it, (key it, promise it)) (queue s)).

(** The executor of the promise that [add] returns: push, arm the timer,
    call [fetchFn()]. *)
Definition add_body (s : t) (k : string) : t :=
  let p := length (promises s) in
  State (queue s ++ [Item k p]) (processing s)
        (if negb (processing s) && negb (timer s) then true else timer s)
        (promises s ++ [None]) (blocked s)
        (invoked s ++ [(k, p)]) (processed s).

(** [add(key, fetchFn)]: with a full queue the caller first awaits
    [process()]. *)
Definition add (s : t) (k : string) : t :=
  if bool_decide (MAX_BATCH_SIZE ≤ length (queue s))%nat then
    let s' := process s in
    State (queue s') (processing s') (timer s') (promises s')
          (blocked s' ++ [k]) (invoked s') (processed s')
  else add_body s k.

(** The [process()] awaited by the oldest suspended caller has settled:
    that caller goes on with the executor. *)
Definition resume (s : t) : t :=
  match blocked s with
  | [] => s
  | k :: rest =>
      add_body (State (queue s) (processing s) (timer s) (promises s) rest
                      (invoked s) (processed s)) k
  end.

(** The [finally] of [process()]. *)
Definition process_done (s : t) : t :=
  State (queue s) false (timer s) (promises s) (blocked s) (invoked s) (processed s).

(** What can happen to a batch processor, one turn of the event loop at a
    time. *)
Inductive action :=
  | Add (k : string)
  | Resume
  | ProducerSettles (p : nat) (o : outcome)
  | TimerFires
  | ItemSettles (p : nat) (o : outcome)
  | ProcessDone.

Definition step (s : t) (a : action) : t :=
  match a with
  | Add k => add s k
  | Resume => resume s
  | ProducerSettles p o => settle s p o
  | TimerFires => process s
  | ItemSettles p o => settle s p o
  | ProcessDone => process_done s
  end.

Definition run (s : t) (acts : list action) : t := foldl step s acts.

(** Number of [add] calls with key [k] in a schedule, and number of
    entries for [k] in a log. *)
Definition is_add (k : string) (a : action) : bool :=
  match a with Add k' => bool_decide (k' = k) | _ => false end.

Definition adds_of (k : string) (acts : list action) : nat :=
  length (filter (λ a, is_add k a) acts).

Definition calls_of (k : string) (log : list (string * nat)) : nat :=
  length (filter (λ e, e.1 = k) log).

Definition waiting_of (k : string) (l : list string) : nat :=
  length (filter (λ k', k' = k) l).

(** The producers called for [k] so far, plus the callers for [k] that
    still wait to call theirs. *)
Definition producers (k : string) (s : t) : nat :=
  (calls_of k (invoked s) + waiting_of k (blocked s))%nat.

Definition one_if (b : bool) : nat := if b then 1%nat else 0%nat.

End batch.

Arguments outcome : clear implicits.
Arguments t : clear implicits.
Arguments action : clear implicits.

End BatchProcessor.

(** ** RequestQueue: the circuit breaker *)

Module RequestQueue.
Import Config.

(** The two per-endpoint maps of the class.  The latency window and the
    adaptive delay play no part in admission and are left out. *)
Record t := State {
  failures : gmap string Z;
  lastFailureTime : gmap string Z
}.

Definition init : t := State ∅ ∅.

(** [isCircuitOpen(endpoint)] at time [now]; it can reset the count. *)
Definition isCircuitOpen (q : t) (endpoint : string) (now : Z) : bool * t :=
  let fails := default 0 (failures q !! endpoint) in
  let lastFailure := default 0 (lastFailureTime q !! endpoint) in
  if failureThreshold <=? fails then
    if now - lastFailure <? resetTimeout then (true, q)
    else if now - lastFailure <? resetTimeout + halfOpenTimeout then (false, q)
    else (false, State (<[endpoint := 0]> (failures q)) (lastFailureTime q))
  else (false, q).

(** The [catch] block of a queued task. *)
Definition record_failure (q : t) (endpoint : string) (now : Z) : t :=
  State (<[endpoint := default 0 (failures q !! endpoint) + 1]> (failures q))
        (<[endpoint := now]> (lastFailureTime q)).

(** The end of the [try] block of a queued task. *)
Definition record_success (q : t) (endpoint : string) : t :=
  State (<[endpoint := 0]> (failures q)) (lastFailureTime q).

(** A queued task up to its [await fn()]: [true] when [fn] is called,
    [false] when the task throws [Circuit breaker open] (which its own
    [catch] then records). *)
Definition start (q : t) (endpoint : string) (now : Z) : bool * t :=
  let '(isOpen, q1) := isCircuitOpen q endpoint now in
  if isOpen then (false, record_failure q1 endpoint now) else (true, q1).

(** [n] failed operations on [endpoint] in a row, all admitted, the last
    one at [now]. *)
Definition fail_times (n : nat) (q : t) (endpoint : string) (now : Z) : t :=
  Nat.iter n (λ q, record_failure q endpoint now) q.

End RequestQueue.

(** ** fetchWithRetry and the queued fetchWithTimeout *)

Module Fetch.
Import Config.

(** What one call of [fetch] can do. *)
Inductive response :=
  | Ok
  | NotOk (status : Z) (statusText errorText : string)
  | AbortError
  | NetworkError (message : string).

Inductive event :=
  | EvCircuitCheck (endpoint : string)
  | EvFetch (url : string) (retryCount : Z)
  | EvSleep (ms : Z).

Inductive result := Resolved | Thrown (message : string).

(** [s.includes(sub)]. *)
Fixpoint includes (sub s : string) : bool :=
  if String.prefix sub s then true
  else match s with
       | EmptyString => false
       | String _ s' => includes sub s'
       end.

Definition failed_message (status : Z) (statusText errorText : string) : string :=
  "API request failed: " +:+ pretty status +:+ " " +:+ statusText +:+ " - " +:+ errorText.

Definition timeout_message : string :=
  "Request timed out after " +:+ pretty API_TIMEOUT +:+ "ms".

(** [fetchWithRetry(url, options, retryCount)]; [upstream n] is the answer
    to the fetch issued with [retryCount = n].  [None] only when the fuel
    runs out, which [MAX_RETRIES + 1] rules out (see
    [fetchWithRetry_total]). *)
Fixpoint fetchWithRetry (fuel : nat) (upstream : Z -> response) (url : string)
    (retryCount : Z) : option (list event * result) :=
  match fuel with
  | O => None
  | S fuel' =>
      let retry :=
        let delay := INITIAL_RETRY_DELAY * 2 ^ retryCount in
        match fetchWithRetry fuel' upstream url (retryCount + 1) with
        | Some (tr, r) => Some (EvFetch url retryCount :: EvSleep delay :: tr, r)
        | None => None
        end in
      let catch (message : string) :=
        if includes "429" message && bool_decide (retryCount < MAX_RETRIES)
        then retry
        else Some ([EvFetch url retryCount], Thrown message) in
      match upstream retryCount with
      | Ok => Some ([EvFetch url retryCount], Resolved)
      | NotOk status statusText errorText =>
          if bool_decide (status = 429) && bool_decide (retryCount < MAX_RETRIES)
          then retry
          else catch (failed_message status statusText errorText)
      | AbortError => Some ([EvFetch url retryCount], Thrown timeout_message)
      | NetworkError message => catch message
      end
  end.

Definition retry_fuel : nat := S (Z.to_nat MAX_RETRIES).

(** [fetchWithTimeout(url)] = [requestQueue.add(() => fetchWithRetry(url), url)]:
    the task is started at [now] and, when admitted, ends at [fin]. *)
Definition fetchWithTimeout (q : RequestQueue.t) (upstream : Z -> response)
    (url : string) (now fin : Z) : option (list event * result * RequestQueue.t) :=
  let '(admitted, q1) := RequestQueue.start q url now in
  if admitted then
    match fetchWithRetry retry_fuel upstream url 0 with
    | Some (tr, Resolved) =>
        Some (EvCircuitCheck url :: tr, Resolved, RequestQueue.record_success q1 url)
    | Some (tr, Thrown m) =>
        Some (EvCircuitCheck url :: tr, Thrown m, RequestQueue.record_failure q1 url fin)
    | None => None
    end
  else Some ([EvCircuitCheck url], Thrown ("Circuit breaker open for " +:+ url), q1).

(** The answers after which [fetchWithRetry] calls itself again, as long
    as [retryCount < MAX_RETRIES]: the status test of the [try] block or
    the message test of the [catch] block. *)
Definition retryable (r : response) : bool :=
  match r with
  | Ok => false
  | NotOk status statusText errorText =>
      bool_decide (status = 429)
      || includes "429" (failed_message status statusText errorText)
  | AbortError => false
  | NetworkError message => includes "429" message
  end.

(** How the call ends on the answer that is not retried. *)
Definition final_result (r : response) : result :=
  match r with
  | Ok => Resolved
  | NotOk status statusText errorText =>
      Thrown (failed_message status statusText errorText)
  | AbortError => Thrown timeout_message
  | NetworkError message => Thrown message
  end.

(** A fetch followed by [n] retries, each after its sleep. *)
Fixpoint retry_trace (url : string) (retryCount : Z) (n : nat) : list event :=
  match n with
  | O => [EvFetch url retryCount]
  | S n' =>
      EvFetch url retryCount :: EvSleep (INITIAL_RETRY_DELAY * 2 ^ retryCount)
        :: retry_trace url (retryCount + 1) n'
  end.

Definition is_fetch (e : event) : bool :=
  match e with EvFetch _ _ => true | _ => false end.

Definition is_circuit_check (e : event) : bool :=
  match e with EvCircuitCheck _ => true | _ => false end.

Definition sleeps (tr : list event) : list Z :=
  omap (λ e, match e with EvSleep ms => Some ms | _ => None end) tr.

End Fetch.

(** ** Upstream message shapes and the shared result types *)

Module Snapchain.

(** [{ type, url }], the shape of attachments and embeds. *)
Record link := Link { link_type : string; url : string }.

Record castId := CastId { castId_fid : Z; castId_hash : string }.

(** Optional arrays are [None] when the field is missing. *)
Record CastAdd := MkCastAdd {
  text : string;
  parentCastId : option castId;
  attachments : option (list link);
  embeds : option (list link);
  embedsDeprecated : option (list link)
}.

(** [string | number] type tag of a profile attribute. *)
Inductive userDataType := TypeName (s : string) | TypeNumber (n : Z).

Record UserData := MkUserData { type : userDataType; value : string }.

(** [timestamp] is [None] when [typeof timestamp !== "number"]. *)
Record message := Message {
  hash : string;
  timestamp : option Z;
  userDataBody : option UserData;
  castAddBody : option CastAdd
}.

End Snapchain.

Module Farcaster.

Record FarcasterUser := User {
  fid : Z;
  username : string;
  displayName : string;
  bio : string;
  pfp : string;
  url : string;
  location : string;
  twitter : string;
  github : string
}.

(** [timestamp] is the argument of [new Date(...)], in milliseconds; the
    ISO rendering is not modelled. *)
Record FarcasterCast := Cast {
  hash : string;
  threadHash : string;
  parentHash : option string;
  author_fid : Z;
  author_username : string;
  text : string;
  timestamp : Z;
  attachments : list Snapchain.link;
  embeds : list Snapchain.link;
  likes : Z;
  recasts : Z
}.

(** JS truthiness of a string and of an optional string. *)
Definition truthy (s : string) : bool := negb (bool_decide (s = "")).

Definition truthy_opt (o : option string) : bool :=
  match o with Some s => truthy s | None => false end.

(** [switch (type)] over the type tag, shared by all profile readers. *)
Definition apply_user_data (user : FarcasterUser) (b : Snapchain.UserData)
  : FarcasterUser :=
  let v := Snapchain.value b in
  let tag (name : string) (n : Z) : bool :=
    match Snapchain.type b with
    | Snapchain.TypeName s => bool_decide (s = name)
    | Snapchain.TypeNumber m => bool_decide (m = n)
    end in
  let '(User f u d b' p w l t g) := user in
  if tag "USER_DATA_TYPE_PFP" 1 then User f u d b' v w l t g
  else if tag "USER_DATA_TYPE_DISPLAY" 2 then User f u v b' p w l t g
  else if tag "USER_DATA_TYPE_BIO" 3 then User f u d v p w l t g
  else if tag "USER_DATA_TYPE_URL" 5 then User f u d b' p v l t g
  else if tag "USER_DATA_TYPE_USERNAME" 6 then User f v d b' p w l t g
  else if tag "USER_DATA_TYPE_LOCATION" 7 then User f u d b' p w v t g
  else if tag "USER_DATA_TYPE_TWITTER" 8 then User f u d b' p w l v g
  else if tag "USER_DATA_TYPE_GITHUB" 9 then User f u d b' p w l t v
  else user.

Definition read_user_data (user : FarcasterUser) (messages : list Snapchain.message)
  : FarcasterUser :=
  foldl (λ u m, match Snapchain.userDataBody m with
                | Some b => apply_user_data u b
                | None => u
                end) user messages.

End Farcaster.

(** ** The batch retrieval: fetchUserData *)

Module Server.
Import Config.
Import Farcaster.

Inductive order := newest | oldest.

(** The query parameters as [fetchUserData] reads them: [includeReplies]
    and [all] are the results of the [=== true] tests. *)
Record params := Params {
  limit : option Z;
  includeReplies : bool;
  all : bool;
  sortOrder : option order
}.

(** The hub.  [resolveFid name] is the identity found for a normalized
    handle; [userDataByFid fid] the profile messages; [castsByFid fid
    reverse pageSize] the chain of pages served for these parameters:
    every page but the last carries a [nextPageToken], and the empty chain
    stands for a single response without messages.  [None] is a request
    that throws. *)
Record upstream := Upstream {
  resolveFid : string -> option Z;
  userDataByFid : Z -> option (list Snapchain.message);
  castsByFid : Z -> bool -> Z -> list (option (list Snapchain.message))
}.

Inductive error := InvalidFid | ResolveFailed | UserDataFailed | CastsFailed.

Definition lower_ascii (c : ascii) : ascii :=
  let n := nat_of_ascii c in
  if ((65 <=? n) && (n <=? 90))%nat then ascii_of_nat (n + 32) else c.

(** [toLowerCase()] on ASCII text. *)
Fixpoint toLowerCase (s : string) : string :=
  match s with
  | EmptyString => EmptyString
  | String c s' => String (lower_ascii c) (toLowerCase s')
  end.

Definition sanitize (name : string) : string :=
  toLowerCase (match name with String "@" rest => rest | _ => name end).

Definition reverse (p : params) : bool :=
  match sortOrder p with Some oldest => false | _ => true end.

(** [params.all === true ? 1000 : params.limit || 10]. *)
Definition targetLimit (p : params) : Z :=
  if all p then 1000
  else match limit p with
       | Some n => if bool_decide (n = 0) then 10 else n
       | None => 10
       end.

Definition pageSize (p : params) : Z :=
  if all p then 1000
  else if includeReplies p then targetLimit p
  else Z.min 1000 (Z.max (targetLimit p * 2) 20).

(** The cast built from one message that has a [castAddBody]. *)
Definition makeCast (user : FarcasterUser) (m : Snapchain.message)
    (b : Snapchain.CastAdd) : FarcasterCast :=
  let parentCastId := Snapchain.parentCastId b in
  {| hash := String.substring 0 8 (Snapchain.text b);
     threadHash := default "" (Snapchain.castId_hash <$> parentCastId);
     parentHash := Snapchain.castId_hash <$> parentCastId;
     author_fid := fid user;
     author_username := username user;
     text := Snapchain.text b;
     timestamp := match Snapchain.timestamp m with
                  | Some t => FARCASTER_EPOCH + t * 1000
                  | None => 0
                  end;
     attachments := default [] (Snapchain.attachments b);
     embeds := default [] (Snapchain.embeds b)
               ++ default [] (Snapchain.embedsDeprecated b);
     likes := 0;
     recasts := 0 |}.

(** The [for] loop over one page: both accumulators grow in page order. *)
Fixpoint processMessages (user : FarcasterUser) (p : params)
    (messages : list Snapchain.message) (allCasts nonReplyCasts : list FarcasterCast)
  : list FarcasterCast * list FarcasterCast :=
  match messages with
  | [] => (allCasts, nonReplyCasts)
  | m :: rest =>
      match Snapchain.castAddBody m with
      | None => processMessages user p rest allCasts nonReplyCasts
      | Some b =>
          let cast := makeCast user m b in
          processMessages user p rest (allCasts ++ [cast])
            (if negb (includeReplies p) && negb (truthy_opt (parentHash cast))
             then nonReplyCasts ++ [cast] else nonReplyCasts)
      end
  end.

(** The break conditions at the end of the [do] body. *)
Definition enough (p : params) (allCasts nonReplyCasts : list FarcasterCast) : bool :=
  negb (all p) &&
  (if includeReplies p then targetLimit p <=? Z.of_nat (length allCasts)
   else targetLimit p <=? Z.of_nat (length nonReplyCasts)).

(** The [do ... while (pageToken)] loop over the chain of pages. *)
Fixpoint paginate (user : FarcasterUser) (p : params)
    (pages : list (option (list Snapchain.message)))
    (allCasts nonReplyCasts : list FarcasterCast)
  : option (list FarcasterCast * list FarcasterCast) :=
  match pages with
  | [] => Some (allCasts, nonReplyCasts)
  | None :: _ => None
  | Some messages :: rest =>
      let '(a, n) := processMessages user p messages allCasts nonReplyCasts in
      if enough p a n then Some (a, n) else paginate user p rest a n
  end.

(** [finalCasts.slice(0, limit)] when a limit applies. *)
Definition applyLimit (p : params) (finalCasts : list FarcasterCast)
  : list FarcasterCast :=
  match limit p with
  | Some l =>
      if negb (all p) && negb (bool_decide (l = 0))
      then take (Z.to_nat (Z.max 1 (Z.min l 1000))) finalCasts
      else finalCasts
  | None => finalCasts
  end.

Definition fetchUserData (up : upstream) (fidOrUsername : Z + string) (p : params)
  : error + (FarcasterUser * list FarcasterCast) :=
  let resolved :=
    match fidOrUsername with
    | inl n => if bool_decide (n <= 0) then inl InvalidFid else inr n
    | inr name =>
        match resolveFid up (toLowerCase (sanitize name)) with
        | Some n => inr n
        | None => inl ResolveFailed
        end
    end in
  match resolved with
  | inl e => inl e
  | inr f =>
      match userDataByFid up f with
      | None => inl UserDataFailed
      | Some messages =>
          let given := match fidOrUsername with inr name => name | inl _ => "" end in
          let user := read_user_data (User f given "" "" "" "" "" "" "") messages in
          let user :=
            if truthy (username user) then user
            else
              let fallback := match fidOrUsername with
                              | inr name => name
                              | inl _ => "user_" +:+ pretty f
                              end in
              User (fid user) fallback (displayName user) (bio user) (pfp user)
                   (url user) (location user) (twitter user) (github user) in
          match paginate user p (castsByFid up (fid user) (reverse p) (pageSize p)) [] [] with
          | None => inl CastsFailed
          | Some (allCasts, nonReplyCasts) =>
              let finalCasts := if includeReplies p then allCasts else nonReplyCasts in
              inr (user, applyLimit p finalCasts)
          end
      end
  end.

(** The casts the hub holds for a request, in the order it serves them,
    and the top-level ones among them. *)
Definition served (user : FarcasterUser)
    (pages : list (list Snapchain.message)) : list FarcasterCast :=
  omap (λ m, makeCast user m <$> Snapchain.castAddBody m) (concat pages).

Definition topLevel (c : FarcasterCast) : bool := negb (truthy_opt (parentHash c)).

End Server.

(** ** The streaming route *)

Module Stream.
Import Config.
Import Farcaster.

(** The query as the route reads it: a flag is [Some b] when the
    parameter is present, [b] telling whether it reads [true]. *)
Record rawQuery := RawQuery {
  raw_fid : option Z;
  raw_username : option string;
  raw_limit : option Z;
  raw_sortOrder : option string;
  raw_all : option bool;
  raw_includeReplies : option bool;
  raw_includeReactions : option bool;
  raw_includeParents : option bool
}.

(** [typedQuery] once the route has converted it. *)
Record query := Query {
  fid : option Z;
  username : option string;
  limit : option Z;
  sortOrder : option string;
  all : bool;
  includeReplies : bool;
  includeReactions : bool;
  includeParents : bool
}.

Definition normalize (r : rawQuery) : query :=
  let all := bool_decide (raw_all r = Some true) in
  {| fid := raw_fid r;
     username := Server.sanitize <$> raw_username r;
     limit := if all then None else raw_limit r;
     sortOrder := raw_sortOrder r;
     all := all;
     includeReplies := bool_decide (raw_includeReplies r = Some true);
     includeReactions :=
       if all then false else bool_decide (raw_includeReactions r = Some true);
     includeParents :=
       if all then false else bool_decide (raw_includeParents r = Some true) |}.

Inductive userDataReply :=
  | UserDataThrows
  | UserDataMalformed
  | UserDataMessages (messages : list Snapchain.message).

(** The hub as the handler sees it; [fetchCastReactions hash fid] is the
    tally that the enrichment call returns (it never throws). *)
Record upstream := Upstream {
  resolveFid : string -> option Z;
  userDataByFid : Z -> userDataReply;
  castsByFid : Z -> bool -> Z -> list (option (list Snapchain.message));
  fetchCastReactions : string -> Z -> Z * Z
}.

Inductive call :=
  | ResolveFid (name : string)
  | UserDataByFid (fid : Z)
  | CastsByFid (fid : Z) (page : nat)
  | CastReactions (hash : string) (fid : Z).

(** One [stream.writeln]. *)
Inductive fragment :=
  | Line (s : string)
  | PostHeader (index : Z) (timestamp : Z).

(** What an observer of the handler sees: a read of [signal.aborted], an
    awaited call towards the hub, an awaited write. *)
Inductive event :=
  | EvCheck (aborted : bool)
  | EvCall (c : call)
  | EvWrite (f : fragment).


Inductive status (A : Type) := Value (a : A) | Returned | Threw.
Arguments Value {A} a.
Arguments Returned {A}.
Arguments Threw {A}.

(** A piece of the handler: from the number of awaits completed so far to
    the events it adds, the new number of awaits and how it ends. *)
Definition M (A : Type) : Type := nat -> list event * nat * status A.

Definition ret {A} (a : A) : M A := λ t, ([], t, Value a).

Definition bind {A B} (m : M A) (f : A -> M B) : M B := λ t,
  let '(es, t1, st) := m t in
  match st with
  | Value a => let '(es', t2, st') := f a t1 in (es ++ es', t2, st')
  | Returned => (es, t1, Returned)
  | Threw => (es, t1, Threw)
  end.

Definition exit {A} : M A := λ t, ([], t, Returned).
Definition throw {A} : M A := λ t, ([], t, Threw).
Definition writeln (f : fragment) : M unit := λ t, ([EvWrite f], S t, Value ()).
Definition request (c : call) : M unit := λ t, ([EvCall c], S t, Value ()).

Notation "'let*' x ':=' m 'in' k" := (bind m (λ x, k))
  (at level 10, x pattern, m at level 100, k at level 200).
Notation "m ;; k" := (bind m (λ _, k))
  (at level 100, k at level 200, right associativity).

Fixpoint writeAll (l : list fragment) : M unit :=
  match l with
  | [] => ret ()
  | f :: rest => writeln f ;; writeAll rest
  end.

Definition when (b : bool) (m : M unit) : M unit := if b then m else ret ().

Definition nl : string := String (ascii_of_nat 10) "".

Section handler.
(** The consumer disconnects while the handler is suspended in its
    [abortAt]-th await ([None]: never), so that [signal.aborted] reads
    [true] from then on; [up] is the hub. *)
Variable abortAt : option nat.
Variable up : upstream.

Definition aborted : M bool := λ t,
  let b := match abortAt with
           | Some n => bool_decide (n ≤ t)%nat
           | None => false
           end in
  ([EvCheck b], t, Value b).

Definition resolve (q : query) : M Z :=
  match fid q with
  | Some f =>
      if bool_decide (f <= 0)
      then writeln (Line "Error: Invalid FID provided") ;; exit
      else ret f
  | None =>
      let name := Server.toLowerCase (default "" (username q)) in
      writeln (Line ("Resolving FID for username: " +:+ name)) ;;
      request (ResolveFid name) ;;
      match resolveFid up (Server.toLowerCase name) with
      | Some f => writeln (Line ("Resolved FID: " +:+ pretty f)) ;; ret f
      | None => writeln (Line "Error: Failed to resolve username") ;; exit
      end
  end.

Definition writeProfile (user : FarcasterUser) : M unit :=
  writeln (Line "Farcaster User Profile") ;;
  writeln (Line ("===================" +:+ nl)) ;;
  writeln (Line ("Username: " +:+ Farcaster.username user)) ;;
  writeln (Line ("Display Name: " +:+
                 if truthy (displayName user) then displayName user else "N/A")) ;;
  writeln (Line ("FID: " +:+ pretty (Farcaster.fid user))) ;;
  when (truthy (bio user)) (writeln (Line ("Bio: " +:+ bio user))) ;;
  when (truthy (pfp user)) (writeln (Line ("Profile Picture: " +:+ pfp user))) ;;
  when (truthy (url user)) (writeln (Line ("URL: " +:+ url user))) ;;
  when (truthy (location user)) (writeln (Line ("Location: " +:+ location user))) ;;
  when (truthy (twitter user)) (writeln (Line ("Twitter: @" +:+ twitter user))) ;;
  when (truthy (github user)) (writeln (Line ("GitHub: " +:+ github user))) ;;
  writeln (Line (nl +:+ "Posts")) ;;
  writeln (Line ("=====" +:+ nl)).

Definition reverse (q : query) : bool :=
  negb (bool_decide (sortOrder q = Some "oldest")).

(** [typedQuery.limit ? Number(typedQuery.limit) : undefined]. *)
Definition targetLimit (q : query) : option Z :=
  match limit q with
  | Some l => if bool_decide (l = 0) then None else Some l
  | None => None
  end.

Definition pageSize (q : query) : Z :=
  match targetLimit q with
  | Some l =>
      if includeReplies q then Z.min 100 l else Z.min 100 (Z.max (l * 2) 20)
  | None => 100
  end.

(** [targetLimit && castCount > targetLimit] and
    [targetLimit && castCount >= targetLimit]. *)
Definition beyond (q : query) (castCount : Z) : bool :=
  match targetLimit q with Some l => l <? castCount | None => false end.

Definition reached (q : query) (castCount : Z) : bool :=
  match targetLimit q with Some l => l <=? castCount | None => false end.

Definition makeCast (user : FarcasterUser) (m : Snapchain.message)
    (b : Snapchain.CastAdd) : FarcasterCast :=
  let parentCastId := Snapchain.parentCastId b in
  {| hash := Snapchain.hash m;
     threadHash := default "" (Snapchain.castId_hash <$> parentCastId);
     parentHash := Snapchain.castId_hash <$> parentCastId;
     author_fid := Farcaster.fid user;
     author_username := Farcaster.username user;
     text := Snapchain.text b;
     timestamp := match Snapchain.timestamp m with
                  | Some t => FARCASTER_EPOCH + t * 1000
                  | None => 0
                  end;
     attachments := default [] (Snapchain.attachments b);
     embeds := default [] (Snapchain.embeds b)
               ++ default [] (Snapchain.embedsDeprecated b);
     likes := 0;
     recasts := 0 |}.

(** The writes for one cast, up to its separator.  The cast object built
    by the handler has no [parentCast], so the [Reply to] lines are never
    written. *)
Definition emitCast (cast : FarcasterCast) (processedCount : Z) : M unit :=
  writeln (PostHeader (processedCount + 1) (timestamp cast)) ;;
  writeln (Line (text cast)) ;;
  when (negb (bool_decide (attachments cast = [])))
    (writeln (Line "Attachments:") ;;
     writeAll (map (λ a, Line ("- " +:+ Snapchain.link_type a +:+ ": " +:+ Snapchain.url a))
                   (attachments cast))) ;;
  let allEmbeds := filter (λ e, truthy (Snapchain.url e)) (embeds cast) in
  when (negb (bool_decide (allEmbeds = [])))
    (writeln (Line "Embeds:") ;;
     writeAll (map (λ e, Line ("- " +:+ Snapchain.url e)) allEmbeds)) ;;
  writeln (Line "---").

(** The body of [if (!signal.aborted) { ... }] after a cast.  The event
    [EvCall (CastReactions ...)] is the call [fetchCastReactions(...)] as
    the callback makes and awaits it; the calls that it sets off in the
    batch processor, at once and when the batch timer fires, are events
    of [Reactions]. *)
Definition writeReactions (cast : FarcasterCast) : M unit :=
  request (CastReactions (hash cast) (author_fid cast)) ;;
  let reactions := fetchCastReactions up (hash cast) (author_fid cast) in
  writeln (Line "Reactions:") ;;
  writeln (Line ("- Likes: " +:+ pretty reactions.1)) ;;
  writeln (Line ("- Recasts: " +:+ pretty reactions.2)) ;;
  writeln (Line "---").

(** The [for] loop over the messages of a page; it yields the two
    counters. *)
Fixpoint forMessages (user : FarcasterUser) (q : query)
    (messages : list Snapchain.message) (castCount processedCount : Z) : M (Z * Z) :=
  match messages with
  | [] => ret (castCount, processedCount)
  | m :: rest =>
      let* a := aborted in
      if a : bool then exit
      else
        match Snapchain.castAddBody m with
        | None => forMessages user q rest castCount processedCount
        | Some b =>
            if negb (includeReplies q) && bool_decide (is_Some (Snapchain.parentCastId b))
            then forMessages user q rest castCount processedCount
            else if beyond q (castCount + 1)
            then ret (castCount + 1, processedCount)
            else
              let cast := makeCast user m b in
              emitCast cast processedCount ;;
              let* a := aborted in
              when (negb a) (writeReactions cast) ;;
              let* a := aborted in
              if a : bool then exit
              else forMessages user q rest (castCount + 1) (processedCount + 1)
        end
  end.

(** The [do ... while (pageToken)] loop. *)
Fixpoint pageLoop (user : FarcasterUser) (q : query)
    (pages : list (option (list Snapchain.message))) (page : nat)
    (castCount processedCount : Z) : M Z :=
  let* a := aborted in
  if a : bool then exit
  else
    request (CastsByFid (Farcaster.fid user) page) ;;
    match pages with
    | [] => ret processedCount
    | None :: _ => throw
    | Some messages :: rest =>
        let* counts := forMessages user q messages castCount processedCount in
        if reached q counts.1 then ret counts.2
        else match rest with
             | [] => ret counts.2
             | _ => pageLoop user q rest (S page) counts.1 counts.2
             end
    end.

(** The [try] block of the streaming callback. *)
Definition body (q : query) : M unit :=
  let* a := aborted in
  if a : bool then exit
  else
    let* f := resolve q in
    let* a := aborted in
    if a : bool then exit
    else
      request (UserDataByFid f) ;;
      match userDataByFid up f with
      | UserDataThrows => throw
      | reply =>
          let* a := aborted in
          if a : bool then exit
          else
            match reply with
            | UserDataMessages messages =>
                let user :=
                  read_user_data (User f (default "" (username q)) "" "" "" "" "" "" "")
                                 messages in
                let user :=
                  if truthy (Farcaster.username user) then user
                  else
                    let fallback :=
                      if truthy (default "" (username q)) then default "" (username q)
                      else "user_" +:+ pretty f in
                    User (Farcaster.fid user) fallback (displayName user) (bio user)
                         (pfp user) (url user) (location user) (twitter user)
                         (github user) in
                let* a := aborted in
                if a : bool then exit
                else
                  writeProfile user ;;
                  let* processedCount :=
                    pageLoop user q
                      (castsByFid up (Farcaster.fid user) (reverse q) (pageSize q)) 0 0 0 in
                  when (bool_decide (processedCount = 0)) (writeln (Line "No posts found."))
            | _ =>
                writeln (Line "Error: Invalid user data response format: messages array missing") ;;
                exit
            end
      end.

(** The callback with its [catch]. *)
Definition handler (q : query) : M unit := λ t,
  let '(es, t1, st) := body q t in
  match st with
  | Threw =>
      let '(es', t2, st') :=
        (let* a := aborted in when (negb a) (writeln (Line "Error: request failed"))) t1 in
      (es ++ es', t2, st')
  | _ => (es, t1, st)
  end.

Definition trace (q : query) : list event := (handler q 0%nat).1.1.

End handler.

Inductive reply :=
  | Redirect
  | BadRequest (message : string)
  | StreamText (events : list event).

(** The route [GET /]. *)
Definition route (abortAt : option nat) (up : upstream) (r : rawQuery) : reply :=
  match r with
  | RawQuery None None None None None None None None => Redirect
  | _ =>
      if bool_decide (raw_fid r = None)
         && negb (truthy (default "" (raw_username r)))
      then BadRequest "Either fid or username is required"
      else if bool_decide (is_Some (raw_limit r))
              && bool_decide (default 0 (raw_limit r) <= 0)
      then BadRequest "Invalid limit parameter"
      else if negb (bool_decide (raw_sortOrder r = None))
              && negb (bool_decide (raw_sortOrder r = Some "newest"))
              && negb (bool_decide (raw_sortOrder r = Some "oldest"))
      then BadRequest "Invalid sortOrder parameter"
      else StreamText (trace abortAt up (normalize r))
  end.

(** *** Reading a trace *)











End Stream.

(** ** The batch retrieval with enrichment: fetchCasts *)

Module Aggregator.
Import Config.
Import Farcaster.

Inductive call :=
  | CastsByFid (fid : Z) (page : nat)
  | CastReactions (hash : string) (fid : Z)
  | CastById (hash : string).

(** [castById hash] is [messages[0]] of the answer with its [data.fid];
    [None] when the request fails or carries no cast. *)
Record upstream := Upstream {
  castsByFid : Z -> bool -> Z -> list (option (list Snapchain.message));
  fetchCastReactions : string -> Z -> Z * Z;
  castById : string -> option (Snapchain.message * Z)
}.

(** A cast with the [parentCast] that [fetchCasts] may attach to it. *)
Record enriched := Enriched { cast : FarcasterCast; parentCast : option FarcasterCast }.

Definition processCast (m : Snapchain.message) (fid : Z) : FarcasterCast :=
  let b := Snapchain.castAddBody m in
  let parentCastId := b ≫= Snapchain.parentCastId in
  {| hash := Snapchain.hash m;
     threadHash := default "" (Snapchain.castId_hash <$> parentCastId);
     parentHash := Snapchain.castId_hash <$> parentCastId;
     author_fid := fid;
     author_username := "";
     text := default "" (Snapchain.text <$> b);
     timestamp := match Snapchain.timestamp m with
                  | Some t => FARCASTER_EPOCH + t * 1000
                  | None => 0
                  end;
     attachments := default [] (b ≫= Snapchain.attachments);
     embeds := default [] (b ≫= Snapchain.embeds)
               ++ default [] (b ≫= Snapchain.embedsDeprecated);
     likes := 0;
     recasts := 0 |}.

Definition withReactions (c : FarcasterCast) (r : Z * Z) : FarcasterCast :=
  {| hash := hash c; threadHash := threadHash c; parentHash := parentHash c;
     author_fid := author_fid c; author_username := author_username c;
     text := text c; timestamp := timestamp c; attachments := attachments c;
     embeds := embeds c; likes := r.1; recasts := r.2 |}.

(** [parentCastIds.add(hash)] on a [Set] kept in insertion order. *)
Definition add_id (h : string) (ids : list string) : list string :=
  if bool_decide (h ∈ ids) then ids else ids ++ [h].

(** The [map] over the messages of one page: the calls it makes, the casts
    it keeps and the parent ids collected. *)
Fixpoint processPage (up : upstream) (q : Stream.query) (fid : Z)
    (messages : list Snapchain.message) (parentCastIds : list string)
  : list call * list FarcasterCast * list string :=
  match messages with
  | [] => ([], [], parentCastIds)
  | m :: rest =>
      match Snapchain.castAddBody m with
      | None => processPage up q fid rest parentCastIds
      | Some _ =>
          let c := processCast m fid in
          if negb (Stream.includeReplies q) && truthy_opt (parentHash c)
          then processPage up q fid rest parentCastIds
          else
            let ids :=
              if Stream.includeParents q && truthy_opt (parentHash c)
              then add_id (default "" (parentHash c)) parentCastIds
              else parentCastIds in
            let '(calls, casts, ids') := processPage up q fid rest ids in
            if Stream.includeReactions q && negb (Stream.all q)
            then (CastReactions (hash c) (author_fid c) :: calls,
                  withReactions c (fetchCastReactions up (hash c) (author_fid c)) :: casts,
                  ids')
            else (calls, c :: casts, ids')
      end
  end.

(** The [do ... while (pageToken)] loop of [fetchCasts]. *)
Fixpoint fetchPages (up : upstream) (q : Stream.query) (fid : Z)
    (pages : list (option (list Snapchain.message))) (page : nat)
    (casts : list FarcasterCast) (parentCastIds : list string)
  : option (list call * list FarcasterCast * list string) :=
  match pages with
  | [] => Some ([CastsByFid fid page], casts, parentCastIds)
  | None :: _ => None
  | Some messages :: rest =>
      let '(calls, new, ids) := processPage up q fid messages parentCastIds in
      let casts' := casts ++ new in
      let stop :=
        match Stream.targetLimit q with
        | Some l => l <=? Z.of_nat (length casts')
        | None => false
        end in
      match rest with
      | [] => Some (CastsByFid fid page :: calls, casts', ids)
      | _ =>
          if stop then Some (CastsByFid fid page :: calls, casts', ids)
          else
            match fetchPages up q fid rest (S page) casts' ids with
            | Some (calls', casts'', ids') =>
                Some (CastsByFid fid page :: calls ++ calls', casts'', ids')
            | None => None
            end
      end
  end.

(** [fetchParentCasts]: one call per hash, in order (the batches of ten
    only add a pause between them); a hash without an answer is left out. *)
Definition fetchParentCasts (up : upstream) (hashes : list string)
  : list call * list (string * FarcasterCast) :=
  (CastById <$> hashes,
   omap (λ h, match castById up h with
              | Some (m, f) =>
                  if bool_decide (is_Some (Snapchain.castAddBody m))
                  then Some (h, processCast m f) else None
              | None => None
              end) hashes).

Definition attach (parents : list (string * FarcasterCast)) (c : FarcasterCast)
  : enriched :=
  Enriched c (if truthy_opt (parentHash c)
              then (λ r, r.2.2)
                     <$> list_find (λ p, p.1 = default "" (parentHash c)) parents
              else None).

Definition fetchCasts (up : upstream) (q : Stream.query) (fid : Z)
  : option (list call * list enriched) :=
  match fetchPages up q fid
          (castsByFid up fid (Stream.reverse q) (Stream.pageSize q)) 0 [] [] with
  | None => None
  | Some (calls, casts, ids) =>
      if Stream.includeParents q && negb (bool_decide (ids = []))
      then
        let '(calls', parents) := fetchParentCasts up ids in
        Some (calls ++ calls', attach parents <$> casts)
      else Some (calls, (λ c, Enriched c None) <$> casts)
  end.

Definition is_page_call (c : call) : bool :=
  match c with CastsByFid _ _ => true | _ => false end.

Definition plain (e : enriched) : Prop :=
  likes (cast e) = 0 ∧ recasts (cast e) = 0 ∧ parentCast e = None.

End Aggregator.

(** ** Fixtures for the examples *)

Module Fixtures.

(** A top-level cast and a reply. *)
Definition post (text : string) (t : Z) : Snapchain.message :=
  Snapchain.Message "0x01" (Some t) None
    (Some (Snapchain.MkCastAdd text None None None None)).

Definition reply (text : string) (t : Z) : Snapchain.message :=
  Snapchain.Message "0x02" (Some t) None
    (Some (Snapchain.MkCastAdd text (Some (Snapchain.CastId 3 "0xparent")) None None None)).

(** Seven top-level casts with three replies among them, newest first. *)
Definition interleaved : list Snapchain.message :=
  [post "p9" 9; reply "r8" 8; post "p7" 7; post "p6" 6; reply "r5" 5;
   post "p4" 4; post "p3" 3; reply "r2" 2; post "p1" 1; post "p0" 0].

(** A hub that knows no handle, has an empty profile for everyone and
    serves the given pages of casts whatever the parameters. *)
Definition hub (pages : list (list Snapchain.message)) : Server.upstream :=
  Server.Upstream (λ _, None) (λ _, Some []) (λ _ _ _, Some <$> pages).

(** A cast whose link is present in both embed fields. *)
Definition link : Snapchain.link := Snapchain.Link "url" "https://example.com/a".

Definition linked : Snapchain.CastAdd :=
  Snapchain.MkCastAdd "look" None None (Some [link]) (Some [link]).

Definition streamHub (pages : list (list Snapchain.message)) : Stream.upstream :=
  Stream.Upstream (λ _, None) (λ _, Stream.UserDataMessages [])
                  (λ _ _ _, Some <$> pages) (λ _ _, (3, 1)).

End Fixtures.

(** ** chunk: the batches of an array *)

Module Chunk.
Section chunk.
Context {A : Type}.

(** [array.slice(i, j)] for indices within [0 <= i <= j]. *)
Definition slice (array : list A) (i j : nat) : list A := take (j - i) (drop i array).

(** The [for (let i = 0; i < array.length; i += size)] loop of [chunk];
    [None] when the fuel runs out. *)
Fixpoint chunk_loop (fuel : nat) (array : list A) (size i : nat)
    (chunks : list (list A)) : option (list (list A)) :=
  match fuel with
  | O => None
  | S fuel' =>
      if bool_decide (i < length array)%nat
      then chunk_loop fuel' array size (i + size) (chunks ++ [slice array i (i + size)])
      else Some chunks
  end.

Definition chunk (array : list A) (size : nat) : option (list (list A)) :=
  chunk_loop (S (length array)) array size 0 [].

End chunk.
End Chunk.

(** ** fetchParentCasts with its batches and pauses *)

Module Parents.
Import Farcaster.

(** [Aggregator.fetchParentCasts] is this function with the batches and
    the pauses left out; here they are kept. *)

Inductive event := EvCastById (hash : string) | EvSleep (ms : Z).

(** One [batch.map] callback: the pair [[hash, cast]] or [null]. *)
Definition fetchOne (up : Aggregator.upstream) (h : string)
  : option (string * FarcasterCast) :=
  match Aggregator.castById up h with
  | Some (m, f) =>
      if bool_decide (is_Some (Snapchain.castAddBody m))
      then Some (h, Aggregator.processCast m f) else None
  | None => None
  end.

(** The [for (const batch of batches)] loop; [parentCasts] is the JS
    object filled with [parentCasts[hash] = cast]. *)
Fixpoint forBatches (up : Aggregator.upstream) (batches : list (list string))
    (parentCasts : gmap string FarcasterCast)
  : list event * gmap string FarcasterCast :=
  match batches with
  | [] => ([], parentCasts)
  | batch :: rest =>
      let results := omap (fetchOne up) batch in
      let parentCasts' := foldl (λ acc r, <[r.1 := r.2]> acc) parentCasts results in
      let '(events, final) := forBatches up rest parentCasts' in
      ((EvCastById <$> batch) ++ EvSleep 100 :: events, final)
  end.

Definition PARENTS_BATCH_SIZE : nat := 10.

(** [fetchParentCasts(castHashes)]. *)
Definition fetchParentCasts (up : Aggregator.upstream) (castHashes : list string)
  : option (list event * gmap string FarcasterCast) :=
  match Chunk.chunk castHashes PARENTS_BATCH_SIZE with
  | Some batches => Some (forBatches up batches ∅)
  | None => None
  end.

Definition requested (events : list event) : list string :=
  omap (λ e, match e with EvCastById h => Some h | _ => None end) events.

Definition pauses (events : list event) : list Z :=
  omap (λ e, match e with EvSleep ms => Some ms | _ => None end) events.

End Parents.

(** ** The rate-limit cache of reaction tallies *)

Module RateLimitCache.

Definition RATE_LIMIT_CACHE_TTL : Z := 300.

(** An entry of [rateLimitCache]: its timestamp and the tally. *)
Definition t : Type := gmap string (Z * (Z * Z)).

Definition getCacheKey (targetFid : Z) (castHash reactionType : string) : string :=
  pretty targetFid +:+ "-" +:+ castHash +:+ "-" +:+ reactionType.

Definition getFromCache (c : gmap string (Z * (Z * Z))) (targetFid : Z)
    (castHash reactionType : string) (now : Z) : option (Z * Z) :=
  match c !! getCacheKey targetFid castHash reactionType with
  | Some cached =>
      if now - cached.1 <? RATE_LIMIT_CACHE_TTL * 1000 then Some cached.2 else None
  | None => None
  end.

Definition setCache (c : gmap string (Z * (Z * Z))) (targetFid : Z)
    (castHash reactionType : string) (data : Z * Z) (now : Z)
  : gmap string (Z * (Z * Z)) :=
  <[getCacheKey targetFid castHash reactionType := (now, data)]> c.

End RateLimitCache.

(** ** RequestQueue: the queue and its [running] counter *)

Module Dispatcher.

Definition MAX_CONCURRENT_REQUESTS : nat := 3.

(** The queue of tasks (named by numbers), the [running] counter, and the
    log of the tasks taken off the queue, in that order. *)
Record t := State { queue : list nat; running : nat; started : list nat }.

Definition init : t := State [] 0 [].

(** [processQueue()] up to its first [await]. *)
Definition processQueue (s : t) : t :=
  if bool_decide (MAX_CONCURRENT_REQUESTS ≤ running s)%nat then s
  else match queue s with
       | [] => s
       | next :: rest => State rest (S (running s)) (started s ++ [next])
       end.

(** [add]: push the task, then [processQueue()]. *)
Definition add (s : t) (task : nat) : t :=
  processQueue (State (queue s ++ [task]) (running s) (started s)).

(** The [finally] of a task: [running--], then [processQueue()]. *)
Definition finish (s : t) : t :=
  processQueue (State (queue s) (running s - 1) (started s)).

Inductive action := Enqueue (task : nat) | Finish.

(** A task can only finish while one is running. *)
Definition step (s : t) (a : action) : t :=
  match a with
  | Enqueue task => add s task
  | Finish => if bool_decide (running s = 0)%nat then s else finish s
  end.

Definition run (acts : list action) : t := foldl step init acts.

Definition enqueued (acts : list action) : list nat :=
  omap (λ a, match a with Enqueue task => Some task | Finish => None end) acts.

End Dispatcher.

(** ** resolveFid of the simple server *)

Module Resolve.

Inductive request :=
  | UserNameProofByName (name : string)
  | UserDataByUsername (name : string).

(** What [fetch] does with a request: an answer with [response.ok] and the
    [fid] of its JSON body, or an exception. *)
Inductive fetched :=
  | Answer (ok : bool) (fid : option Z)
  | Aborted
  | Failed.

Record response := Response { ok : bool; fid : option Z }.

Inductive error :=
  | UsernameRequired
  | RequestFailed
  | TimedOut
  | FetchError
  | FailedToResolve
  | InvalidFid.

(** [fetchWithTimeout(url)] of the server: it throws unless
    [response.ok]. *)
Definition fetchWithTimeout (hub : request -> fetched) (r : request)
  : error + response :=
  match hub r with
  | Answer true f => inr (Response true f)
  | Answer false _ => inl RequestFailed
  | Aborted => inl TimedOut
  | Failed => inl FetchError
  end.

(** [!data.fid || data.fid <= 0]. *)
Definition validFid (f : option Z) : error + Z :=
  match f with
  | Some n => if bool_decide (n = 0) || bool_decide (n <= 0) then inl InvalidFid else inr n
  | None => inl InvalidFid
  end.

(** [resolveFid(username)]: the requests made, in order, and the result. *)
Definition resolveFid (hub : request -> fetched) (username : string)
  : list request * (error + Z) :=
  if negb (Farcaster.truthy username) then ([], inl UsernameRequired)
  else
    let name := Server.toLowerCase username in
    match fetchWithTimeout hub (UserNameProofByName name) with
    | inl e => ([UserNameProofByName name], inl e)
    | inr response =>
        if negb (ok response) then
          match fetchWithTimeout hub (UserDataByUsername name) with
          | inl e => ([UserNameProofByName name; UserDataByUsername name], inl e)
          | inr userResponse =>
              if negb (ok userResponse)
              then ([UserNameProofByName name; UserDataByUsername name], inl FailedToResolve)
              else ([UserNameProofByName name; UserDataByUsername name],
                    validFid (fid userResponse))
          end
        else ([UserNameProofByName name], validFid (fid response))
    end.

End Resolve.

(** ** The profile fields, one by one *)

Module Profile.
Import Farcaster.

(** The fields that the [switch] of the profile readers can assign. *)
Inductive field := Pfp | DisplayName | Bio | Url | Username | Location | Twitter | Github.

(** The [case] labels: the field selected by a type tag, if any. *)
Definition field_of (t : Snapchain.userDataType) : option field :=
  match t with
  | Snapchain.TypeName s =>
      if bool_decide (s = "USER_DATA_TYPE_PFP") then Some Pfp
      else if bool_decide (s = "USER_DATA_TYPE_DISPLAY") then Some DisplayName
      else if bool_decide (s = "USER_DATA_TYPE_BIO") then Some Bio
      else if bool_decide (s = "USER_DATA_TYPE_URL") then Some Url
      else if bool_decide (s = "USER_DATA_TYPE_USERNAME") then Some Username
      else if bool_decide (s = "USER_DATA_TYPE_LOCATION") then Some Location
      else if bool_decide (s = "USER_DATA_TYPE_TWITTER") then Some Twitter
      else if bool_decide (s = "USER_DATA_TYPE_GITHUB") then Some Github
      else None
  | Snapchain.TypeNumber n =>
      if bool_decide (n = 1) then Some Pfp
      else if bool_decide (n = 2) then Some DisplayName
      else if bool_decide (n = 3) then Some Bio
      else if bool_decide (n = 5) then Some Url
      else if bool_decide (n = 6) then Some Username
      else if bool_decide (n = 7) then Some Location
      else if bool_decide (n = 8) then Some Twitter
      else if bool_decide (n = 9) then Some Github
      else None
  end.

Definition get_field (f : field) (u : FarcasterUser) : string :=
  match f with
  | Pfp => pfp u | DisplayName => displayName u | Bio => bio u | Url => url u
  | Username => username u | Location => location u | Twitter => twitter u
  | Github => github u
  end.

#[global] Instance field_eq_dec : EqDecision field.
Proof. solve_decision. Defined.

(** The value of the last record for field [f] among the messages. *)
Definition last_value (f : field) (messages : list Snapchain.message) : option string :=
  last (omap (λ m, match Snapchain.userDataBody m with
                   | Some b => if bool_decide (field_of (Snapchain.type b) = Some f)
                               then Some (Snapchain.value b) else None
                   | None => None
                   end) messages).

End Profile.

(** ** Polling one endpoint of the circuit breaker *)

Module Polling.
Import Config RequestQueue.

(** Dispatches on one endpoint at the given times, none of them admitted
    long enough to complete: the admissions, in order. *)
Fixpoint poll (q : RequestQueue.t) (endpoint : string) (times : list Z) : list bool :=
  match times with
  | [] => []
  | now :: rest =>
      let '(admitted, q') := start q endpoint now in
      admitted :: poll q' endpoint rest
  end.

(** Each time is less than [resetTimeout] after the one before. *)
Fixpoint spaced (last : Z) (times : list Z) : Prop :=
  match times with
  | [] => True
  | now :: rest => now - last < resetTimeout ∧ spaced now rest
  end.

End Polling.

(** ** CacheManager: sequences of calls *)

Module CacheRuns.
Import Config CacheManager.
Section runs.
Context {V : Type}.
Variable jsonLength : V -> Z.
Variable generateETag : V -> string.

(** A call on the cache manager. *)
Inductive op :=
  | OpGet (key : string) (ttl now : Z)
  | OpSet (key : string) (d : V) (ttl now : Z).

Definition apply (c : t V) (o : op) : t V :=
  match o with
  | OpGet key ttl now => (get jsonLength c key ttl now).2
  | OpSet key d ttl now => set jsonLength generateETag c key d ttl now
  end.

Definition run (ops : list op) : t V := foldl apply empty ops.

(** The summed length of the payloads held. *)
Definition total (m : list (string * entry V)) : Z :=
  foldr (λ p acc, jsonLength (data p.2) + acc) 0 m.

End runs.
Arguments op : clear implicits.
End CacheRuns.

(** ** BatchProcessor: what settles a promise *)

Module Settlement.
Import BatchProcessor.
Section settlement.
Context {T : Type}.

(** The outcome that an action delivers to promise [p], if any. *)
Definition settlement_for (p : nat) (a : action T) : option (outcome T) :=
  match a with
  | ProducerSettles p' o => if bool_decide (p' = p) then Some o else None
  | ItemSettles p' o => if bool_decide (p' = p) then Some o else None
  | _ => None
  end.

Definition first_settlement (p : nat) (acts : list (action T)) : option (outcome T) :=
  head (omap (settlement_for p) acts).

Definition items (q : list item) : list (string * nat) :=
  (λ it, (key it, promise it)) <$> q.

End settlement.
End Settlement.

(** ** fetchCasts: reading its calls *)

Module Enrichment.
Import Farcaster Aggregator.

(** Whether [fetchCasts] asks for the tally of each cast. *)
Definition wanted (q : Stream.query) : bool :=
  Stream.includeReactions q && negb (Stream.all q).

Definition reaction_calls (calls : list call) : list (string * Z) :=
  omap (λ c, match c with CastReactions h f => Some (h, f) | _ => None end) calls.

Definition parent_calls (calls : list call) : list string :=
  omap (λ c, match c with CastById h => Some h | _ => None end) calls.

Definition target (c : FarcasterCast) : string * Z := (hash c, author_fid c).

Definition is_reply (c : FarcasterCast) : bool := truthy_opt (parentHash c).

Definition parent_of (c : FarcasterCast) : string := default "" (parentHash c).

(** What one page contributes. *)
Record page_ok (up : upstream) (q : Stream.query) (ids : list string)
    (calls : list call) (new : list FarcasterCast) (ids' : list string) : Prop := PageOk {
  ok_reactions : reaction_calls calls = if wanted q then target <$> new else [];
  ok_parents : parent_calls calls = [];
  ok_tally : wanted q = true ->
    Forall (λ c, (likes c, recasts c) = fetchCastReactions up (hash c) (author_fid c)) new;
  ok_plain : wanted q = false -> Forall (λ c, likes c = 0 ∧ recasts c = 0) new;
  ok_top : Stream.includeReplies q = false -> Forall (λ c, is_reply c = false) new;
  ok_nodup : NoDup ids -> NoDup ids';
  ok_ids : ∀ h, h ∈ ids' ↔
    h ∈ ids ∨ (Stream.includeParents q = true
               ∧ ∃ c, c ∈ new ∧ is_reply c = true ∧ parent_of c = h)
}.

End Enrichment.

(** ** The streaming route: the numbering of the posts *)

Module Numbering.
Import Stream.

(** The indices of the post headers written, in order. *)
Definition headers (es : list event) : list Z :=
  omap (λ e, match e with EvWrite (PostHeader i _) => Some i | _ => None end) es.

Definition is_line (f : fragment) : bool :=
  match f with Line _ => true | PostHeader _ _ => false end.

(** A piece of the handler that writes no post header. *)
Definition Mute {A} (m : M A) : Prop := ∀ t, headers (m t).1.1 = [].

(** A piece entered with [processedCount = pc] numbers its posts
    [pc + 1, pc + 2, ...], stays within the limit, and a value it yields
    satisfies [post] at the count reached. *)
Definition numbered {A} (pc : Z) (lim : option Z) (post : A -> Z -> Prop)
    (r : list event * nat * status A) : Prop :=
  ∃ n : nat,
    headers r.1.1 = seqZ (pc + 1) (Z.of_nat n)
    ∧ (∀ L, lim = Some L -> n = 0%nat ∨ pc + Z.of_nat n <= L)
    ∧ (∀ a, r.2 = Value a -> post a (pc + Z.of_nat n)).

Definition Numbered {A} (pc : Z) (lim : option Z) (post : A -> Z -> Prop)
    (m : M A) : Prop := ∀ t, numbered pc lim post (m t).

End Numbering.

(** ** Beneath a reaction-enrichment call: cache, batch processor, timer *)

(** [Stream] has one event for [await fetchCastReactions(...)], the call
    as the callback makes it.  Here is what that call sets off in
    [cacheManager] and [reactionsBatchProcessor], and what the timer of
    the batch processor does later, as turns of the event loop.  The
    tally that the callback goes on to write is the one of
    [Stream.upstream]; a schedule agrees with it when the first
    settlement of each promise brings that tally.  An upstream call is a
    call of [fetchWithTimeout]. *)

Module Reactions.
Import Config.

Definition REACTIONS_TTL : Z := 60 * 1000.

(** [{ likes, recasts }]. *)
Definition tally : Type := Z * Z.

Definition defaultReactions : tally := (0, 0).

(** [JSON.stringify({ likes, recasts }).length]. *)
Definition jsonLength (r : tally) : Z :=
  21 + Z.of_nat (String.length (pretty r.1)) + Z.of_nat (String.length (pretty r.2)).

Inductive reactionType := Like | Recast.

(** A call [fetchWithTimeout(.../v1/reactionsByCast?target_fid=...
    &target_hash=...&reaction_type=...)]. *)
Record reactionsByCast := ReactionsByCast {
  target_fid : string;
  target_hash : string;
  reaction_type : reactionType
}.

(** The two calls of a [Promise.all([fetchWithTimeout(...Like),
    fetchWithTimeout(...Recast)])]. *)
Definition both (targetFid castHash : string) : list reactionsByCast :=
  [ReactionsByCast targetFid castHash Like; ReactionsByCast targetFid castHash Recast].

(** The address of the call, with the default of [SNAPCHAIN_BASE_URL]. *)
Definition SNAPCHAIN_BASE_URL : string := "https://hub.pinata.cloud".

Definition url (r : reactionsByCast) : string :=
  SNAPCHAIN_BASE_URL +:+ "/v1/reactionsByCast?target_fid=" +:+ target_fid r
    +:+ "&target_hash=" +:+ target_hash r
    +:+ "&reaction_type=" +:+ match reaction_type r with
                              | Like => "Like"
                              | Recast => "Recast"
                              end.

(** Who makes an upstream call: the producer handed to
    [reactionsBatchProcessor.add] or [processSingleItem]. *)
Inductive caller := Producer | SingleItem.

(** What an observer of the server sees during a streamed request: the
    events of the callback and the upstream calls made beneath its
    reaction-enrichment calls. *)
Inductive event :=
  | Callback (e : Stream.event)
  | Upstream (who : caller) (r : reactionsByCast).

(** [s.split(sep)]. *)
Fixpoint split (sep : ascii) (s : string) : list string :=
  match s with
  | EmptyString => [EmptyString]
  | String c s' =>
      if bool_decide (c = sep) then EmptyString :: split sep s'
      else match split sep s' with
           | [] => [String c EmptyString]
           | x :: xs => String c x :: xs
           end
  end.

(** [const [targetFid, castHash] = key.split(":")] with the test
    [!targetFid || !castHash]. *)
Definition valid_key (key : string) : option (string * string) :=
  match split ":"%char key with
  | targetFid :: castHash :: _ =>
      if Farcaster.truthy targetFid && Farcaster.truthy castHash
      then Some (targetFid, castHash) else None
  | _ => None
  end.

(** The upstream calls of [processSingleItem(key)] of the reactions batch
    processor: none when it throws on the key. *)
Definition processSingleItem (key : string) : list reactionsByCast :=
  match valid_key key with
  | Some (targetFid, castHash) => both targetFid castHash
  | None => []
  end.

Definition cacheKey (castHash : string) (targetFid : Z) : string :=
  "reactions:" +:+ pretty targetFid +:+ ":" +:+ castHash.

Definition batchKey (castHash : string) (targetFid : Z) : string :=
  pretty targetFid +:+ ":" +:+ castHash.

(** Where the callback is suspended inside [fetchCastReactions]: at
    [await this.process()] of [add], or on the promise that [add]
    returned. *)
Inductive suspension :=
  | AwaitsProcess (castHash : string) (targetFid : Z)
  | AwaitsPromise (p : nat).

(** How the two answers awaited by a producer or by [processSingleItem]
    come back. *)
Inductive answer :=
  | BothOk (likes recasts : Z)
  | NotOk
  | Throws (e : string).

(** The server during one streamed request: the two singletons, the
    producers and the items whose answers are awaited, whether a
    [setTimeout] of the batch processor is outstanding, what the callback
    has yet to do, where it is suspended, and the log. *)
Record t := State {
  cacheManager : CacheManager.t tally;
  reactionsBatchProcessor : BatchProcessor.t tally;
  producers : list (nat * string);
  items : list nat;
  scheduled : bool;
  pending : list Stream.event;
  current : option suspension;
  log : list event
}.

(** A server just started, about to run a callback whose events are
    [tr]. *)
Definition start (tr : list Stream.event) : t :=
  State CacheManager.empty BatchProcessor.init [] [] false tr None [].

(** One turn of the event loop. *)
Inductive turn :=
  | Next (now : Z)
  | Resume
  | ProducerSettles (p : nat) (a : answer) (now : Z)
  | TimerFires
  | ItemSettles (p : nat) (a : answer)
  | ProcessDone.

Definition is_valid (it : BatchProcessor.item) : bool :=
  bool_decide (is_Some (valid_key (BatchProcessor.key it))).

(** [processSingleItem] throws at once on a key it cannot read, and
    [process] rejects the item. *)
Definition reject_invalid (b : BatchProcessor.t tally) (it : BatchProcessor.item)
  : BatchProcessor.t tally :=
  if is_valid it then b
  else BatchProcessor.settle b (BatchProcessor.promise it)
         (BatchProcessor.Rejected "Invalid key format for reactions batch processor").

Section server.
(** The SHA-256 digest of [cacheManager.set]. *)
Variable generateETag : tally -> string.

(** [process()] of the reactions batch processor up to its [await]: the
    queue is taken as the batch and [processSingleItem] makes its two
    calls for each item. *)
Definition process (s : t) : t :=
  let bp := reactionsBatchProcessor s in
  if BatchProcessor.processing bp || bool_decide (BatchProcessor.queue bp = []) then s
  else
    let batch := BatchProcessor.queue bp in
    State (cacheManager s)
          (foldl reject_invalid (BatchProcessor.process bp) batch)
          (producers s)
          (items s ++ (BatchProcessor.promise <$> filter (λ it, is_valid it) batch))
          false (pending s) (current s)
          (log s ++ (Upstream SingleItem
                       <$> concat ((λ it, processSingleItem (BatchProcessor.key it)) <$> batch))).

(** The executor of the promise of [add]: the item is pushed, the timer
    armed if there is none, and the producer makes its two calls. *)
Definition executor (s : t) (castHash : string) (targetFid : Z) : t :=
  let bp := reactionsBatchProcessor s in
  let p := length (BatchProcessor.promises bp) in
  State (cacheManager s)
        (BatchProcessor.add_body bp (batchKey castHash targetFid))
        (producers s ++ [(p, cacheKey castHash targetFid)])
        (items s)
        (scheduled s || negb (BatchProcessor.processing bp) && negb (BatchProcessor.timer bp))
        (pending s) (Some (AwaitsPromise p))
        (log s ++ (Upstream Producer <$> both (pretty targetFid) castHash)).

(** [fetchCastReactions(castHash, targetFid)] up to its first suspension;
    a fresh cache entry answers without any call. *)
Definition fetchCastReactions (s : t) (castHash : string) (targetFid : Z) (now : Z) : t :=
  let '(cached, cache') :=
    CacheManager.get jsonLength (cacheManager s) (cacheKey castHash targetFid)
                     REACTIONS_TTL now in
  let s1 := State cache' (reactionsBatchProcessor s) (producers s) (items s) (scheduled s)
                  (pending s) (current s) (log s) in
  match cached with
  | Some (_, false) => s1
  | _ =>
      if bool_decide (MAX_BATCH_SIZE ≤ length (BatchProcessor.queue (reactionsBatchProcessor s1)))%nat
      then
        let s2 := process s1 in
        let bp := reactionsBatchProcessor s2 in
        State (cacheManager s2)
              (BatchProcessor.State (BatchProcessor.queue bp) (BatchProcessor.processing bp)
                 (BatchProcessor.timer bp) (BatchProcessor.promises bp)
                 (BatchProcessor.blocked bp ++ [batchKey castHash targetFid])
                 (BatchProcessor.invoked bp) (BatchProcessor.processed bp))
              (producers s2) (items s2) (scheduled s2) (pending s2)
              (Some (AwaitsProcess castHash targetFid)) (log s2)
      else executor s1 castHash targetFid
  end.

(** Whether the callback can go on: it is not inside [fetchCastReactions],
    or the promise it awaits there has settled. *)
Definition can_proceed (s : t) : bool :=
  match current s with
  | None => true
  | Some (AwaitsProcess _ _) => false
  | Some (AwaitsPromise p) =>
      match BatchProcessor.promises (reactionsBatchProcessor s) !! p with
      | Some None => false
      | _ => true
      end
  end.

Definition outcome_of_item (a : answer) : BatchProcessor.outcome tally :=
  match a with
  | BothOk likes recasts => BatchProcessor.Fulfilled (likes, recasts)
  | NotOk => BatchProcessor.Rejected "Failed to fetch reactions"
  | Throws e => BatchProcessor.Rejected e
  end.

Definition outcome_of_producer (a : answer) : BatchProcessor.outcome tally :=
  match a with
  | BothOk likes recasts => BatchProcessor.Fulfilled (likes, recasts)
  | NotOk => BatchProcessor.Fulfilled defaultReactions
  | Throws e => BatchProcessor.Rejected e
  end.

Definition find_producer (p : nat) (l : list (nat * string)) : option string :=
  snd <$> head (filter (λ x, x.1 = p) l).

Definition step (s : t) (a : turn) : t :=
  match a with
  | Next now =>
      if can_proceed s then
        match pending s with
        | [] => s
        | e :: rest =>
            let s1 := State (cacheManager s) (reactionsBatchProcessor s) (producers s)
                            (items s) (scheduled s) rest None (log s ++ [Callback e]) in
            match e with
            | Stream.EvCall (Stream.CastReactions castHash targetFid) =>
                fetchCastReactions s1 castHash targetFid now
            | _ => s1
            end
        end
      else s
  | Resume =>
      match current s with
      | Some (AwaitsProcess castHash targetFid) =>
          let bp := reactionsBatchProcessor s in
          executor (State (cacheManager s)
                          (BatchProcessor.State (BatchProcessor.queue bp)
                             (BatchProcessor.processing bp) (BatchProcessor.timer bp)
                             (BatchProcessor.promises bp) (tail (BatchProcessor.blocked bp))
                             (BatchProcessor.invoked bp) (BatchProcessor.processed bp))
                          (producers s) (items s) (scheduled s) (pending s) (current s)
                          (log s))
                   castHash targetFid
      | _ => s
      end
  | ProducerSettles p a now =>
      match find_producer p (producers s) with
      | None => s
      | Some key =>
          State (match a with
                 | BothOk likes recasts =>
                     CacheManager.set jsonLength generateETag (cacheManager s) key
                                      (likes, recasts) REACTIONS_TTL now
                 | _ => cacheManager s
                 end)
                (BatchProcessor.settle (reactionsBatchProcessor s) p (outcome_of_producer a))
                (filter (λ x, x.1 ≠ p) (producers s))
                (items s) (scheduled s) (pending s) (current s) (log s)
      end
  | TimerFires =>
      if scheduled s
      then process (State (cacheManager s) (reactionsBatchProcessor s) (producers s)
                          (items s) false (pending s) (current s) (log s))
      else s
  | ItemSettles p a =>
      if bool_decide (p ∈ items s)
      then State (cacheManager s)
                 (BatchProcessor.settle (reactionsBatchProcessor s) p (outcome_of_item a))
                 (producers s) (filter (λ x, x ≠ p) (items s))
                 (scheduled s) (pending s) (current s) (log s)
      else s
  | ProcessDone =>
      if BatchProcessor.processing (reactionsBatchProcessor s) && bool_decide (items s = [])
      then State (cacheManager s) (BatchProcessor.process_done (reactionsBatchProcessor s))
                 (producers s) (items s) (scheduled s) (pending s) (current s) (log s)
      else s
  end.

Definition run (s : t) (sched : list turn) : t := foldl step s sched.

End server.

(** *** Reading the log *)


Definition upstreams (l : list event) : list (caller * reactionsByCast) :=
  omap (λ e, match e with Upstream who r => Some (who, r) | _ => None end) l.

Definition enrichment (e : Stream.event) : option (string * Z) :=
  match e with
  | Stream.EvCall (Stream.CastReactions castHash targetFid) => Some (castHash, targetFid)
  | _ => None
  end.












End Reactions.

(** * Properties *)

(** ** CacheManager: freshness of [get] after [set], eviction in [set] *)

Module CacheManagerProofs.
Import Config.
Import CacheManager.

Section cache_proofs.
Context {V : Type}.
Variable jsonLength : V -> Z.
Variable generateETag : V -> string.

Implicit Types (m : list (string * entry V)) (c : t V) (e : entry V).

Lemma map_get_set k e m : map_get k (map_set k e m) = Some e.
Proof.
  induction m as [|[k' e'] m IH]; simpl.
  - by rewrite decide_True.
  - destruct (decide (k = k')) as [->|Hne]; simpl.
    + by rewrite decide_True.
    + by rewrite decide_False.
Qed.

Lemma map_get_delete k m : map_get k (map_delete k m) = None.
Proof.
  unfold map_delete. induction m as [|[k' e'] m IH]; [done|].
  rewrite filter_cons. simpl. destruct (decide (k' ≠ k)) as [Hne|Heq]; [|done].
  simpl. by rewrite decide_False.
Qed.

Lemma map_get_Some_elem k e m : map_get k m = Some e -> (k, e) ∈ m.
Proof.
  induction m as [|[k' e'] m IH]; simpl; [done|].
  destruct (decide (k = k')) as [->|Hne].
  - intros [= ->]. left.
  - intros H. right. by apply IH.
Qed.




(** *** The stable sort puts an oldest entry first *)






(** *** The eviction loop *)






(** C4. After [set(key, d)] at time [now], a [get(key, ttl)] at time
    [now'] sees the entry at age [now' - now]: up to [ttl] it returns
    exactly [d] with [stale = false]; above [ttl] and up to [ttl] plus the
    stale-while-revalidate window it returns [d] with [stale = true]; above
    that it returns nothing and the entry is gone from the cache. *)
Theorem get_after_set c key d ttl0 ttl now now' :
  let c' := set jsonLength generateETag c key d ttl0 now in
  let age := now' - now in
  (age <= ttl -> get jsonLength c' key ttl now' = (Some (d, false), c'))
  ∧ (ttl < age <= ttl + STALE_WHILE_REVALIDATE ->
     get jsonLength c' key ttl now' = (Some (d, true), c'))
  ∧ (ttl + STALE_WHILE_REVALIDATE < age ->
     (get jsonLength c' key ttl now').1 = None
     ∧ map_get key (cache (get jsonLength c' key ttl now').2) = None).
Proof.
  intros c' age. subst c' age. unfold get, set. simpl.
  rewrite map_get_set. simpl. unfold STALE_WHILE_REVALIDATE.
  split; [|split]; intros H.
  - rewrite (proj2 (Z.ltb_ge _ _)) by lia.
    by rewrite (proj2 (Z.ltb_ge _ _)) by lia.
  - rewrite (proj2 (Z.ltb_ge _ _)) by lia.
    by rewrite (proj2 (Z.ltb_lt _ _)) by lia.
  - rewrite (proj2 (Z.ltb_lt _ _)) by lia. simpl.
    split; [done|apply map_get_delete].
Qed.


End cache_proofs.

(** The three ages of an entry written at time 1000 and read with a TTL of
    one minute: after one second, after a minute and a second, after more
    than six minutes. Payloads are numbers, serialized at their value. *)
Lemma get_after_set_witness :
  let c' := set (λ z, z) (λ _, "") empty "username:v" 7 60000 1000 in
  get (λ z, z) c' "username:v" 60000 2000 = (Some (7, false), c')
  ∧ get (λ z, z) c' "username:v" 60000 62000 = (Some (7, true), c')
  ∧ (get (λ z, z) c' "username:v" 60000 362000).1 = None.
Proof.
  intros c'.
  split; [|split].
  - apply (get_after_set (λ z, z) (λ _, "") empty "username:v" 7 60000 60000 1000 2000).
    lia.
  - apply (get_after_set (λ z, z) (λ _, "") empty "username:v" 7 60000 60000 1000 62000).
    unfold STALE_WHILE_REVALIDATE. lia.
  - apply (get_after_set (λ z, z) (λ _, "") empty "username:v" 7 60000 60000 1000 362000).
    unfold STALE_WHILE_REVALIDATE. lia.
Defined.



End CacheManagerProofs.

(** ** BatchProcessor: one producer call per [add] *)

Module BatchProcessorProofs.
Import Config.
Import BatchProcessor.

Section batch_proofs.
Context {T : Type}.

Implicit Types (s : t T) (a : action T) (o : outcome T).

#[local] Open Scope nat_scope.

Lemma calls_of_snoc k k' p (log : list (string * nat)) :
  calls_of k (log ++ [(k', p)]) = calls_of k log + one_if (bool_decide (k' = k)).
Proof.
  unfold calls_of. rewrite filter_app, length_app. f_equal.
  rewrite filter_cons. simpl. unfold one_if.
  destruct (decide (k' = k)) as [H|H].
  - by rewrite bool_decide_eq_true_2.
  - by rewrite bool_decide_eq_false_2.
Qed.

Lemma waiting_of_snoc k k' (l : list string) :
  waiting_of k (l ++ [k']) = waiting_of k l + one_if (bool_decide (k' = k)).
Proof.
  unfold waiting_of. rewrite filter_app, length_app. f_equal.
  rewrite filter_cons. unfold one_if.
  destruct (decide (k' = k)) as [H|H].
  - by rewrite bool_decide_eq_true_2.
  - by rewrite bool_decide_eq_false_2.
Qed.

Lemma waiting_of_cons k k' (l : list string) :
  waiting_of k (k' :: l) = one_if (bool_decide (k' = k)) + waiting_of k l.
Proof.
  unfold waiting_of. rewrite filter_cons. unfold one_if.
  destruct (decide (k' = k)) as [H|H].
  - by rewrite bool_decide_eq_true_2.
  - by rewrite bool_decide_eq_false_2.
Qed.

Lemma adds_of_cons k a (acts : list (action T)) :
  adds_of k (a :: acts) = one_if (is_add k a) + adds_of k acts.
Proof.
  unfold adds_of. rewrite filter_cons. unfold one_if.
  destruct (is_add k a); simpl; done.
Qed.

Lemma process_keeps_producers k s : producers k (process s) = producers k s.
Proof. unfold process, producers. by destruct (_ || _). Qed.

Lemma settle_keeps_producers k s p o : producers k (settle s p o) = producers k s.
Proof. unfold settle, producers. by destruct (promises s !! p) as [[?|]|]. Qed.

Lemma step_producers k s a :
  producers k (step s a) = producers k s + one_if (is_add k a).
Proof.
  destruct a as [k'| |p o| |p o|]; simpl.
  - unfold add. destruct (bool_decide _).
    + unfold producers. simpl. rewrite waiting_of_snoc.
      pose proof (process_keeps_producers k s) as H. unfold producers in H. lia.
    + unfold add_body, producers. simpl. rewrite calls_of_snoc. lia.
  - unfold resume. destruct (blocked s) as [|k' rest] eqn:Hb; [simpl; lia|].
    unfold add_body, producers. simpl. rewrite Hb, calls_of_snoc, waiting_of_cons. lia.
  - rewrite settle_keeps_producers. simpl. lia.
  - rewrite process_keeps_producers. simpl. lia.
  - rewrite settle_keeps_producers. simpl. lia.
  - unfold producers. simpl. lia.
Qed.

Lemma run_producers k acts s :
  producers k (run s acts) = producers k s + adds_of k acts.
Proof.
  unfold run. revert s. induction acts as [|a acts IH]; intros s; simpl.
  - unfold adds_of. simpl. lia.
  - rewrite IH, step_producers, adds_of_cons. lia.
Qed.

Lemma settle_pending s p o :
  promises s !! p = Some None -> promises (settle s p o) !! p = Some (Some o).
Proof.
  intros H. unfold settle. rewrite H. simpl.
  apply list_lookup_insert_eq. by apply lookup_lt_Some in H.
Qed.

Lemma settle_settled s p o o' :
  promises s !! p = Some (Some o) -> settle s p o' = s.
Proof. intros H. unfold settle. by rewrite H. Qed.

(** C1, as the code has it. Every [add(k, fetchFn)] calls the [fetchFn]
    it was given, whatever is already in flight for [k]: after any
    schedule, the producers called for [k] and the callers for [k] still
    suspended in front of a full queue add up to the number of [add]
    calls for [k].  A pending promise takes the first settlement delivered
    to it and keeps it. *)
Theorem add_never_coalesces (acts : list (action T)) (k : string) :
  let s := run init acts in
  calls_of k (invoked s) + waiting_of k (blocked s) = adds_of k acts
  ∧ ∀ p o o', promises s !! p = Some None ->
      promises (settle s p o) !! p = Some (Some o)
      ∧ settle (settle s p o) p o' = settle s p o.
Proof.
  intros s. split.
  - pose proof (run_producers k acts init) as H. unfold producers in H.
    fold s in H. rewrite H. simpl. unfold calls_of, waiting_of. simpl. lia.
  - intros p o o' Hp. split; [by apply settle_pending|].
    eapply settle_settled. by apply settle_pending.
Qed.

End batch_proofs.

(** Two [add] calls for the same cast, nothing settled yet: both producers
    have been called, and the first caller's promise takes the first
    settlement it gets and ignores a later one. *)
Lemma add_never_coalesces_witness :
  let k := "5650:0xabc" in
  let acts : list (action (Z * Z)) := [Add k; Add k] in
  let s := run init acts in
  promises s !! 0%nat = Some None
  ∧ (calls_of k (invoked s) + waiting_of k (blocked s) = 2)%nat
  ∧ promises (settle s 0 (Fulfilled (3, 1))) !! 0%nat = Some (Some (Fulfilled (3, 1)))
  ∧ settle (settle s 0 (Fulfilled (3, 1))) 0 (Rejected "late")
    = settle s 0 (Fulfilled (3, 1)).
Proof.
  intros k acts s.
  destruct (add_never_coalesces acts k) as [Hcount Hsettle].
  destruct (Hsettle 0%nat (Fulfilled (3, 1)) (Rejected "late")) as [H1 H2];
    [reflexivity|].
  split; [reflexivity|]. split; [exact Hcount|]. split; [exact H1|exact H2].
Defined.

(** Two callers ask for the reactions of the same cast while nothing has
    settled yet: two producers are called, and when the first one fulfils
    and the second one rejects the two callers get different results. *)
Lemma add_same_key_twice :
  let k := "5650:0xabc" in
  let acts : list (action (Z * Z)) :=
    [Add k; Add k;
     ProducerSettles 0 (Fulfilled (3, 1));
     ProducerSettles 1 (Rejected "Circuit breaker open")] in
  let s := run init acts in
  adds_of k acts = 2%nat
  ∧ invoked s = [(k, 0%nat); (k, 1%nat)]
  ∧ ¬ (calls_of k (invoked s) <= 1)%nat
  ∧ promises s = [Some (Fulfilled (3, 1)); Some (Rejected "Circuit breaker open")].
Proof.
  vm_compute. split; [done|]. split; [done|]. split; [lia|done].
Qed.

End BatchProcessorProofs.

(** ** RequestQueue: admission by the circuit breaker *)

Module RequestQueueProofs.
Import Config.
Import RequestQueue.

Lemma isCircuitOpen_true q endpoint now :
  (isCircuitOpen q endpoint now).1 = true
  ↔ failureThreshold <= default 0 (failures q !! endpoint)
    ∧ now - default 0 (lastFailureTime q !! endpoint) < resetTimeout.
Proof.
  unfold isCircuitOpen.
  destruct (failureThreshold <=? _) eqn:Hf.
  - apply Z.leb_le in Hf.
    destruct (_ <? resetTimeout) eqn:Ht.
    + apply Z.ltb_lt in Ht. simpl. split; [done|by intros _].
    + apply Z.ltb_ge in Ht.
      destruct (_ <? resetTimeout + halfOpenTimeout); simpl;
        (split; [done|intros [_ ?]; lia]).
  - apply Z.leb_gt in Hf. simpl. split; [done|intros [? _]; lia].
Qed.

Lemma start_admits q endpoint now :
  (start q endpoint now).1 = negb (isCircuitOpen q endpoint now).1.
Proof. unfold start. by destruct (isCircuitOpen q endpoint now) as [[] q1]. Qed.

Lemma record_failure_lookup q endpoint later :
  failures (record_failure q endpoint later) !! endpoint
    = Some (default 0 (failures q !! endpoint) + 1)
  ∧ lastFailureTime (record_failure q endpoint later) !! endpoint = Some later.
Proof. unfold record_failure. simpl. by rewrite !lookup_insert_eq. Qed.

Lemma fail_times_lookup n q endpoint t :
  failures (fail_times n q endpoint t) !! endpoint
    = (if n is O then failures q !! endpoint
       else Some (default 0 (failures q !! endpoint) + Z.of_nat n))
  ∧ lastFailureTime (fail_times n q endpoint t) !! endpoint
    = (if n is O then lastFailureTime q !! endpoint else Some t).
Proof.
  induction n as [|n [IHf IHt]]; [done|].
  unfold fail_times in *. rewrite Nat.iter_succ.
  destruct (record_failure_lookup (Nat.iter n (λ q, record_failure q endpoint t) q)
              endpoint t) as [Hf Ht].
  rewrite Hf, Ht, IHf. split; [|done].
  destruct n; simpl; f_equal; lia.
Qed.

(** C2, as the code has it. The circuit of an endpoint rejects exactly
    when its failure count has reached the threshold and less than
    [resetTimeout] has passed since the recorded last failure; below the
    threshold every dispatch is admitted, and starting from no failures
    the circuit is open after [n] failures in a row exactly when [n] is at
    least the threshold.  From [resetTimeout] to [resetTimeout +
    halfOpenTimeout] after the last failure every dispatch is admitted and
    admission changes nothing, so any number of trials can be in flight;
    past that window the check itself zeroes the count.  A success zeroes
    the count; a failure adds one and stamps the time, so that a failed
    trial reopens the circuit for [resetTimeout]. *)
Theorem circuit_breaker (q : t) (endpoint : string) (now : Z) :
  let fails := default 0 (failures q !! endpoint) in
  let elapsed := now - default 0 (lastFailureTime q !! endpoint) in
  ((isCircuitOpen q endpoint now).1 = true
     ↔ failureThreshold <= fails ∧ elapsed < resetTimeout)
  ∧ (start q endpoint now).1 = negb (isCircuitOpen q endpoint now).1
  ∧ (fails < failureThreshold -> start q endpoint now = (true, q))
  ∧ (∀ (n : nat) t, fails = 0 -> now - t < resetTimeout ->
       (isCircuitOpen (fail_times n q endpoint t) endpoint now).1 = true
       ↔ failureThreshold <= Z.of_nat n)
  ∧ (failureThreshold <= fails ->
     resetTimeout <= elapsed < resetTimeout + halfOpenTimeout ->
     start q endpoint now = (true, q))
  ∧ (failureThreshold <= fails -> resetTimeout + halfOpenTimeout <= elapsed ->
     (start q endpoint now).1 = true
     ∧ failures (start q endpoint now).2 !! endpoint = Some 0)
  ∧ failures (record_success q endpoint) !! endpoint = Some 0
  ∧ (∀ later,
       failures (record_failure q endpoint later) !! endpoint = Some (fails + 1)
       ∧ lastFailureTime (record_failure q endpoint later) !! endpoint = Some later)
  ∧ (∀ later now', failureThreshold <= fails -> now' - later < resetTimeout ->
       (start (record_failure q endpoint later) endpoint now').1 = false).
Proof.
  intros fails elapsed. subst fails elapsed.
  split; [apply isCircuitOpen_true|].
  split; [apply start_admits|].
  split.
  { intros Hlt. unfold start, isCircuitOpen.
    by rewrite (proj2 (Z.leb_gt _ _)) by lia. }
  split.
  { intros n t Hz Ht. rewrite isCircuitOpen_true.
    destruct (fail_times_lookup n q endpoint t) as [Hf Hl]. rewrite Hf, Hl.
    unfold failureThreshold in *.
    destruct n as [|n]; simpl; rewrite ?Hz.
    - split; [intros [? _]|intros ?]; lia.
    - split; [intros [? _]; lia|intros ?; split; lia]. }
  split.
  { intros Hge [H1 H2]. unfold start, isCircuitOpen.
    rewrite (proj2 (Z.leb_le _ _)) by lia.
    rewrite (proj2 (Z.ltb_ge _ _)) by lia.
    by rewrite (proj2 (Z.ltb_lt _ _)) by lia. }
  split.
  { intros Hge H1. unfold start, isCircuitOpen.
    rewrite (proj2 (Z.leb_le _ _)) by lia.
    rewrite (proj2 (Z.ltb_ge _ _)) by (unfold halfOpenTimeout in H1; lia).
    rewrite (proj2 (Z.ltb_ge _ _)) by lia.
    simpl. split; [done|apply lookup_insert_eq]. }
  split.
  { unfold record_success. simpl. apply lookup_insert_eq. }
  split.
  { intros later. apply record_failure_lookup. }
  intros later now' Hge Ht. rewrite start_admits.
  assert ((isCircuitOpen (record_failure q endpoint later) endpoint now').1 = true)
    as ->; [|done].
  apply isCircuitOpen_true.
  destruct (record_failure_lookup q endpoint later) as [-> ->]. simpl.
  lia.
Qed.

(** An endpoint that has failed five times and then stayed quiet for
    thirty-five seconds, seen at the three kinds of moment. *)
Lemma circuit_breaker_witness :
  let q := fail_times 5 init "castsByFid" 0 in
  (start q "castsByFid" 29999).1 = false
  ∧ start q "castsByFid" 35000 = (true, q)
  ∧ failures (start q "castsByFid" 40000).2 !! "castsByFid" = Some 0
  ∧ (start (record_failure q "castsByFid" 35500) "castsByFid" 65499).1 = false
  ∧ start init "castsByFid" 0 = (true, init).
Proof.
  intros q.
  destruct (circuit_breaker q "castsByFid" 35000) as (_ & _ & _ & _ & Hhalf & _ & _ & _ & Hre).
  destruct (circuit_breaker q "castsByFid" 40000) as (_ & _ & _ & _ & _ & Hpast & _).
  destruct (circuit_breaker q "castsByFid" 29999) as (Hopen & Hst & _).
  destruct (circuit_breaker init "castsByFid" 0) as (_ & _ & Hclosed & _).
  split.
  { rewrite Hst. apply negb_false_iff, Hopen. by vm_compute. }
  split.
  { apply Hhalf; by vm_compute. }
  split.
  { apply Hpast; by vm_compute. }
  split.
  { apply Hre; by vm_compute. }
  apply Hclosed. by vm_compute.
Defined.

(** With the count at the threshold and thirty seconds gone, a first
    dispatch is admitted and, while it is still in flight (nothing has
    been recorded), a second one is admitted too: the window does not
    stop at one trial. *)
Lemma half_open_admits_two_trials :
  let q := fail_times 5 init "castsByFid" 0 in
  let first := start q "castsByFid" 30000 in
  let second := start first.2 "castsByFid" 30001 in
  first.1 = true ∧ first.2 = q ∧ second.1 = true.
Proof. by vm_compute. Qed.

End RequestQueueProofs.

(** ** fetchWithRetry: what is retried, how often, and behind which check *)

Module FetchProofs.
Import Config.
Import Fetch.

#[local] Arguments includes : simpl never.
#[local] Arguments failed_message : simpl never.

(** The recursion of [fetchWithRetry] is bounded by the retry ceiling:
    with more fuel than retries left it returns, and its run is a fetch
    followed by [n] retries, [n] being the number of retryable answers in
    a row, cut at the ceiling. *)
Lemma fetchWithRetry_shape fuel upstream url retryCount :
  0 <= retryCount <= MAX_RETRIES ->
  MAX_RETRIES - retryCount < Z.of_nat fuel ->
  ∃ n : nat,
    fetchWithRetry fuel upstream url retryCount
      = Some (retry_trace url retryCount n,
              final_result (upstream (retryCount + Z.of_nat n)))
    ∧ retryCount + Z.of_nat n <= MAX_RETRIES
    ∧ (∀ i, retryCount <= i < retryCount + Z.of_nat n -> retryable (upstream i) = true)
    ∧ (retryCount + Z.of_nat n = MAX_RETRIES
       ∨ retryable (upstream (retryCount + Z.of_nat n)) = false).
Proof.
  revert retryCount. induction fuel as [|fuel IH]; intros rc Hrc Hfuel; [lia|].
  assert (Hretry : rc < MAX_RETRIES ->
            retryable (upstream rc) = true ->
            ∃ n : nat,
              match fetchWithRetry fuel upstream url (rc + 1) with
              | Some (tr, r) =>
                  Some (EvFetch url rc :: EvSleep (INITIAL_RETRY_DELAY * 2 ^ rc) :: tr, r)
              | None => None
              end = Some (retry_trace url rc n, final_result (upstream (rc + Z.of_nat n)))
              ∧ rc + Z.of_nat n <= MAX_RETRIES
              ∧ (∀ i, rc <= i < rc + Z.of_nat n -> retryable (upstream i) = true)
              ∧ (rc + Z.of_nat n = MAX_RETRIES
                 ∨ retryable (upstream (rc + Z.of_nat n)) = false)).
  { intros Hlt Hr.
    destruct (IH (rc + 1)) as (n & Heq & Hle & Hall & Hlast); [lia|lia|].
    exists (S n). rewrite Heq. simpl retry_trace.
    replace (rc + Z.of_nat (S n)) with (rc + 1 + Z.of_nat n) by lia.
    split; [done|]. split; [done|]. split; [|done].
    intros i Hi. destruct (decide (i = rc)) as [->|Hne]; [done|].
    apply Hall. lia. }
  assert (Hstop : ∀ r, final_result (upstream rc) = r ->
            (rc = MAX_RETRIES ∨ retryable (upstream rc) = false) ->
            ∃ n : nat,
              Some ([EvFetch url rc], r)
                = Some (retry_trace url rc n, final_result (upstream (rc + Z.of_nat n)))
              ∧ rc + Z.of_nat n <= MAX_RETRIES
              ∧ (∀ i, rc <= i < rc + Z.of_nat n -> retryable (upstream i) = true)
              ∧ (rc + Z.of_nat n = MAX_RETRIES
                 ∨ retryable (upstream (rc + Z.of_nat n)) = false)).
  { intros r Hr Hlast. exists O. simpl. rewrite Z.add_0_r, Hr.
    split; [done|]. split; [lia|]. split; [intros i ?; lia|done]. }
  simpl fetchWithRetry.
  destruct (upstream rc) as [|status statusText errorText| |message] eqn:Hup.
  - apply Hstop; rewrite ?Hup; [done|by right].
  - destruct (decide (status = 429)) as [->|Hstatus].
    + rewrite bool_decide_eq_true_2 by done.
      destruct (decide (rc < MAX_RETRIES)) as [Hlt|Hge].
      * rewrite bool_decide_eq_true_2 by done. simpl andb. cbv iota.
        apply Hretry; [done|]. by rewrite ?Hup.
      * rewrite bool_decide_eq_false_2 by done. rewrite andb_false_r.
        apply Hstop; rewrite ?Hup; [done|left; lia].
    + rewrite (bool_decide_eq_false_2 (status = 429)) by done. simpl andb. cbv iota.
      destruct (includes "429" (failed_message status statusText errorText)) eqn:Hinc.
      * destruct (decide (rc < MAX_RETRIES)) as [Hlt|Hge].
        -- rewrite bool_decide_eq_true_2 by done. simpl andb. cbv iota.
           apply Hretry; [done|].
           rewrite ?Hup. simpl. by rewrite Hinc, orb_true_r.
        -- rewrite bool_decide_eq_false_2 by done. simpl andb. cbv iota.
           apply Hstop; rewrite ?Hup; [done|left; lia].
      * simpl andb. cbv iota. apply Hstop; rewrite ?Hup; [done|right]. simpl.
        by rewrite Hinc, bool_decide_eq_false_2.
  - apply Hstop; rewrite ?Hup; [done|by right].
  - destruct (includes "429" message) eqn:Hinc.
    + destruct (decide (rc < MAX_RETRIES)) as [Hlt|Hge].
      * rewrite bool_decide_eq_true_2 by done. simpl andb. cbv iota.
        apply Hretry; [done|]. by rewrite ?Hup.
      * rewrite bool_decide_eq_false_2 by done. simpl andb. cbv iota.
        apply Hstop; rewrite ?Hup; [done|left; lia].
    + simpl andb. cbv iota. apply Hstop; rewrite ?Hup; [done|by right].
Qed.

Lemma fetchWithRetry_total upstream url :
  is_Some (fetchWithRetry retry_fuel upstream url 0).
Proof.
  destruct (fetchWithRetry_shape retry_fuel upstream url 0) as (n & Heq & _).
  - unfold MAX_RETRIES. lia.
  - unfold retry_fuel, MAX_RETRIES. lia.
  - rewrite Heq. by eexists.
Qed.

Lemma retry_trace_sleeps url retryCount n :
  sleeps (retry_trace url retryCount n)
  = (λ i, INITIAL_RETRY_DELAY * 2 ^ i) <$> seqZ retryCount (Z.of_nat n).
Proof.
  revert retryCount. induction n as [|n IH]; intros rc; [done|].
  rewrite seqZ_cons by lia. simpl. unfold sleeps in *. simpl. f_equal.
  rewrite IH. do 2 f_equal; lia.
Qed.

Lemma retry_trace_no_check url retryCount n :
  Forall (λ e, is_circuit_check e = false) (retry_trace url retryCount n).
Proof.
  revert retryCount. induction n as [|n IH]; intros rc; simpl.
  - by repeat constructor.
  - constructor; [done|]. constructor; [done|]. apply IH.
Qed.

Lemma retry_trace_fetches url retryCount n :
  length (filter (λ e, is_fetch e) (retry_trace url retryCount n)) = S n.
Proof.
  revert retryCount. induction n as [|n IH]; intros rc; [done|].
  simpl retry_trace. rewrite !filter_cons. simpl. by rewrite IH.
Qed.

(** C3, as the code has it. An admitted [fetchWithTimeout] checks the
    circuit once and then runs one fetch followed by [n] retries, [n] at
    most [MAX_RETRIES]: an answer is retried when it is a 429 (or its
    error message contains ["429"]) and the ceiling is not reached, after a
    sleep of [INITIAL_RETRY_DELAY * 2 ^ retryCount]; a request that timed
    out is not retried and fails with the time-out message.  No retry is
    preceded by a circuit check of its own. *)
Theorem fetchWithTimeout_retries q upstream url now fin :
  (RequestQueue.start q url now).1 = true ->
  ∃ (n : nat) q',
    fetchWithTimeout q upstream url now fin
      = Some (EvCircuitCheck url :: retry_trace url 0 n,
              final_result (upstream (Z.of_nat n)), q')
    ∧ Z.of_nat n <= MAX_RETRIES
    ∧ (∀ i, 0 <= i < Z.of_nat n -> retryable (upstream i) = true)
    ∧ (Z.of_nat n = MAX_RETRIES ∨ retryable (upstream (Z.of_nat n)) = false)
    ∧ length (filter (λ e, is_fetch e) (retry_trace url 0 n)) = S n
    ∧ sleeps (retry_trace url 0 n)
      = (λ i, INITIAL_RETRY_DELAY * 2 ^ i) <$> seqZ 0 (Z.of_nat n)
    ∧ Forall (λ e, is_circuit_check e = false) (retry_trace url 0 n)
    ∧ (∀ statusText errorText, retryable (NotOk 429 statusText errorText) = true)
    ∧ retryable AbortError = false
    ∧ final_result AbortError = Thrown "Request timed out after 10000ms".
Proof.
  intros Hadm. unfold fetchWithTimeout.
  destruct (RequestQueue.start q url now) as [admitted q1]. simpl in Hadm. subst admitted.
  destruct (fetchWithRetry_shape retry_fuel upstream url 0) as (n & Heq & Hle & Hall & Hlast).
  { unfold MAX_RETRIES. lia. }
  { unfold retry_fuel, MAX_RETRIES. lia. }
  rewrite Heq. rewrite !Z.add_0_l in *.
  exists n.
  destruct (final_result (upstream (Z.of_nat n))) as [|m] eqn:Hres;
    eexists; (split; [reflexivity|]);
    (split; [done|]); (split; [done|]); (split; [done|]);
    (split; [apply retry_trace_fetches|]);
    (split; [apply retry_trace_sleeps|]);
    (split; [apply retry_trace_no_check|]);
    (split; [done|]); split; [done|by vm_compute|done|by vm_compute].
Qed.

(** A hub that answers 429 to everything: one check, four fetches, sleeps
    of one, two and four seconds. *)
Lemma fetchWithTimeout_retries_witness :
  let upstream := λ _ : Z, NotOk 429 "Too Many Requests" "" in
  (RequestQueue.start RequestQueue.init "castsByFid" 0).1 = true
  ∧ ∃ (n : nat) q',
      fetchWithTimeout RequestQueue.init upstream "castsByFid" 0 7100
        = Some (EvCircuitCheck "castsByFid" :: retry_trace "castsByFid" 0 n,
                final_result (upstream (Z.of_nat n)), q')
      ∧ Z.of_nat n <= MAX_RETRIES
      ∧ sleeps (retry_trace "castsByFid" 0 n)
        = (λ i, INITIAL_RETRY_DELAY * 2 ^ i) <$> seqZ 0 (Z.of_nat n).
Proof.
  intros upstream. split; [reflexivity|].
  destruct (fetchWithTimeout_retries RequestQueue.init upstream "castsByFid" 0 7100)
    as (n & q' & Heq & Hle & _ & _ & _ & Hsl & _); [reflexivity|].
  exists n, q'. split; [exact Heq|]. split; [exact Hle|exact Hsl].
Defined.

(** A request that times out is fetched once and not again; and the fetch
    that follows a 429 goes out without a second circuit check. *)
Lemma timeout_not_retried_and_retry_unchecked :
  fst <$> fetchWithTimeout RequestQueue.init (λ _, AbortError) "castsByFid" 0 10000
    = Some ([EvCircuitCheck "castsByFid"; EvFetch "castsByFid" 0],
            Thrown "Request timed out after 10000ms")
  ∧ fst <$> fetchWithTimeout RequestQueue.init
              (λ i, if bool_decide (i = 0) then NotOk 429 "Too Many Requests" "" else Ok)
              "castsByFid" 0 1200
    = Some ([EvCircuitCheck "castsByFid"; EvFetch "castsByFid" 0; EvSleep 1000;
             EvFetch "castsByFid" 1], Resolved).
Proof. by vm_compute. Qed.

End FetchProofs.

(** ** fetchUserData: top-level casts, the limit, the embeds *)

Module ServerProofs.
Import Config.
Import Farcaster.
Import Server.

Lemma apply_user_data_fid user b : fid (apply_user_data user b) = fid user.
Proof.
  unfold apply_user_data. destruct user. simpl.
  repeat match goal with |- context [if ?c then _ else _] => destruct c end; done.
Qed.

Lemma read_user_data_fid messages user : fid (read_user_data user messages) = fid user.
Proof.
  unfold read_user_data. revert user.
  induction messages as [|m messages IH]; intros user; simpl; [done|].
  rewrite IH. destruct (Snapchain.userDataBody m); [apply apply_user_data_fid|done].
Qed.

Lemma served_app user pages1 pages2 :
  served user (pages1 ++ pages2) = served user pages1 ++ served user pages2.
Proof. unfold served. by rewrite concat_app, omap_app. Qed.

Lemma served_cons user messages pages :
  served user (messages :: pages) = served user [messages] ++ served user pages.
Proof. apply (served_app user [messages] pages). Qed.

Lemma filter_topLevel_cons c (l : list FarcasterCast) :
  filter (λ c, topLevel c) (c :: l)
  = if topLevel c then c :: filter (λ c, topLevel c) l
    else filter (λ c, topLevel c) l.
Proof. rewrite filter_cons. by destruct (topLevel c). Qed.

(** Without replies, a page adds its casts to the first accumulator and
    its top-level casts to the second, in page order. *)
Lemma processMessages_top_level user p messages allCasts nonReplyCasts :
  includeReplies p = false ->
  processMessages user p messages allCasts nonReplyCasts
  = (allCasts ++ served user [messages],
     nonReplyCasts ++ filter (λ c, topLevel c) (served user [messages])).
Proof.
  intros Hrep. unfold served. cbn [concat]. rewrite app_nil_r.
  revert allCasts nonReplyCasts.
  induction messages as [|m messages IH]; intros a n.
  - cbn. by rewrite !app_nil_r.
  - cbn [processMessages omap list_omap].
    destruct (Snapchain.castAddBody m) as [b|]; cbn [fmap option_fmap option_map];
      [|apply IH].
    rewrite IH, Hrep. cbn [negb andb].
    change (negb (truthy_opt (parentHash (makeCast user m b))))
      with (topLevel (makeCast user m b)).
    rewrite filter_topLevel_cons.
    destruct (topLevel (makeCast user m b)).
    + by rewrite <- !app_assoc.
    + by rewrite <- !app_assoc.
Qed.




Example fetchUserData_interleaved :
  match fetchUserData (Fixtures.hub [Fixtures.interleaved]) (inl 5650)
          (Params (Some 5) false false (Some newest)) with
  | inr (_, casts) => text <$> casts = ["p9"; "p7"; "p6"; "p4"; "p3"]
  | inl _ => False
  end.
Proof. by vm_compute. Qed.


(** C9, as the code has it. The embeds of a translated cast are the
    current embeds followed by the legacy ones, nothing removed: a URL
    occurs as often as in the two upstream lists together.  The cast of
    the streaming handler is built the same way. *)
Theorem embeds_are_concatenated user m b (u : string) :
  let occurrences (l : list Snapchain.link) :=
    length (filter (λ e, Snapchain.url e = u) l) in
  embeds (makeCast user m b)
  = default [] (Snapchain.embeds b) ++ default [] (Snapchain.embedsDeprecated b)
  ∧ occurrences (embeds (makeCast user m b))
    = (occurrences (default [] (Snapchain.embeds b))
       + occurrences (default [] (Snapchain.embedsDeprecated b)))%nat
  ∧ embeds (Stream.makeCast user m b) = embeds (makeCast user m b).
Proof.
  intros occurrences. split; [done|]. split; [|done].
  unfold occurrences. simpl. by rewrite filter_app, length_app.
Qed.

(** A link present in both [embeds] and [embedsDeprecated] is twice in
    the embeds of the cast. *)
Lemma embed_in_both_fields_twice :
  let cast := makeCast (User 1 "v" "" "" "" "" "" "" "")
                (Snapchain.Message "0x01" (Some 0) None (Some Fixtures.linked))
                Fixtures.linked in
  Snapchain.url <$> embeds cast = ["https://example.com/a"; "https://example.com/a"]
  ∧ ¬ NoDup (Snapchain.url <$> embeds cast).
Proof.
  split; [done|]. simpl. intros H. apply NoDup_cons in H as [H _].
  apply H. left.
Qed.

End ServerProofs.

(** ** The streaming handler: abort checks *)

Module StreamProofs.
Import Config.
Import Farcaster.
Import Stream.

(** *** The scans *)







(** *** The pieces of the handler *)

Section pieces.
Variable abortAt : option nat.
Variable up : upstream.
























End pieces.

(** The consumer disconnects while the second cast of a page is being
    written (the twentieth await): the handler finishes that cast without
    its reactions and stops; the third cast is never touched. *)
Example stream_aborted_mid_page :
  let tr := trace (Some 20%nat)
              (Fixtures.streamHub
                 [[Fixtures.post "one" 1; Fixtures.post "two" 2; Fixtures.post "three" 3]])
              (normalize (RawQuery (Some 1) None (Some 5) None None None None None)) in
  drop 25 tr
  = [EvCheck false; EvWrite (PostHeader 2 1609459202000); EvWrite (Line "two");
     EvWrite (Line "---"); EvCheck true; EvCheck true].
Proof. by vm_compute. Qed.

(** C7 on the code. A request with [all=true] that also asks for reactions
    and parents: the route clears both flags, and the handler still makes
    the reaction-enrichment call for the cast it emits and writes the
    tally it got. *)
Lemma all_mode_still_fetches_reactions :
  let r := RawQuery (Some 1) None None None (Some true) None (Some true) (Some true) in
  includeReactions (normalize r) = false
  ∧ includeParents (normalize r) = false
  ∧ ∃ events,
      route None (Fixtures.streamHub [[Fixtures.post "gm" 1]]) r = StreamText events
      ∧ drop 14 events
        = [EvCheck false; EvWrite (PostHeader 1 1609459201000); EvWrite (Line "gm");
           EvWrite (Line "---"); EvCheck false; EvCall (CastReactions "0x01" 1);
           EvWrite (Line "Reactions:"); EvWrite (Line "- Likes: 3");
           EvWrite (Line "- Recasts: 1"); EvWrite (Line "---"); EvCheck false].
Proof.
  intros r. split; [done|]. split; [done|].
  eexists. split; [by vm_compute|]. by vm_compute.
Qed.

End StreamProofs.

(** ** fetchCasts: what [all] switches off in the batch retrieval *)

Module AggregatorProofs.
Import Config.
Import Farcaster.
Import Aggregator.

Lemma processPage_all_mode up q fid messages ids :
  Stream.all q = true -> Stream.includeParents q = false ->
  ∃ casts,
    processPage up q fid messages ids = ([], casts, ids)
    ∧ Forall (λ c, likes c = 0 ∧ recasts c = 0) casts.
Proof.
  intros Hall Hpar. induction messages as [|m rest (casts & IH & Hc)].
  - by exists [].
  - cbn [processPage]. destruct (Snapchain.castAddBody m); [|by exists casts].
    destruct (negb (Stream.includeReplies q) && _); [by exists casts|].
    rewrite Hpar, Hall. cbn [andb negb]. rewrite andb_false_r, IH.
    exists (processCast m fid :: casts). split; [done|]. by constructor.
Qed.

Lemma fetchPages_all_mode up q fid pages page casts ids calls casts' ids' :
  Stream.all q = true -> Stream.includeParents q = false ->
  Forall (λ c, likes c = 0 ∧ recasts c = 0) casts ->
  fetchPages up q fid pages page casts ids = Some (calls, casts', ids') ->
  Forall (λ c, is_page_call c = true) calls
  ∧ Forall (λ c, likes c = 0 ∧ recasts c = 0) casts'
  ∧ ids' = ids.
Proof.
  intros Hall Hpar. revert page casts calls casts' ids'.
  induction pages as [|p rest IH]; intros page casts calls casts' ids' Hc; cbn [fetchPages].
  - intros [= <- <- <-]. split; [by repeat constructor|done].
  - destruct p as [messages|]; [|done].
    destruct (processPage_all_mode up q fid messages ids Hall Hpar) as (new & -> & Hnew).
    assert (Hc' : Forall (λ c, likes c = 0 ∧ recasts c = 0) (casts ++ new))
      by by apply Forall_app.
    destruct rest as [|p' rest'].
    { intros [= <- <- <-]. split; [by repeat constructor|done]. }
    destruct (match Stream.targetLimit q with Some _ => _ | None => _ end).
    { intros [= <- <- <-]. split; [by repeat constructor|done]. }
    destruct (fetchPages up q fid (p' :: rest') (S page) (casts ++ new) ids)
      as [[[calls2 casts2] ids2]|] eqn:Hrest; [|done].
    intros [= <- <- <-].
    destruct (IH _ _ _ _ _ Hc' Hrest) as (H1 & H2 & H3).
    split; [by constructor|done].
Qed.

(** What the batch retrieval does with [all=true] once the route has
    cleared the two flags: only page fetches go out, and every cast keeps
    its zero tally and has no parent attached. *)
Lemma fetchCasts_all_mode up fid r calls casts :
  Stream.raw_all r = Some true ->
  fetchCasts up (Stream.normalize r) fid = Some (calls, casts) ->
  Forall (λ c, is_page_call c = true) calls ∧ Forall plain casts.
Proof.
  intros Hraw. unfold fetchCasts.
  assert (Hall : Stream.all (Stream.normalize r) = true).
  { unfold Stream.normalize. simpl. by rewrite Hraw. }
  assert (Hpar : Stream.includeParents (Stream.normalize r) = false).
  { unfold Stream.normalize. simpl. by rewrite Hraw. }
  destruct (fetchPages _ _ _ _ _ _ _) as [[[calls1 casts1] ids1]|] eqn:Hp; [|done].
  destruct (fetchPages_all_mode _ _ _ _ _ _ _ _ _ _ Hall Hpar (Forall_nil_2 _) Hp)
    as (H1 & H2 & ->).
  rewrite Hpar. cbn [andb]. intros [= <- <-]. split; [done|].
  apply Forall_fmap. eapply Forall_impl; [exact H2|].
  intros c [? ?]. by repeat split.
Qed.

End AggregatorProofs.

(** ** chunk: a partition into batches *)

Module ChunkProofs.
Import Chunk.
Section chunk_proofs.
Context {A : Type}.
#[local] Open Scope nat_scope.

Lemma chunk_loop_spec fuel (array : list A) size i chunks :
  0 < size -> length array - i < fuel ->
  ∃ cs, chunk_loop fuel array size i chunks = Some (chunks ++ cs)
        ∧ concat cs = drop i array
        ∧ Forall (λ c, 0 < length c <= size) cs
        ∧ length cs * size < length array - i + size
        ∧ length array - i <= length cs * size.
Proof.
  intros Hsize. revert i chunks. induction fuel as [|fuel IH]; intros i chunks Hfuel; [lia|].
  cbn [chunk_loop]. case_bool_decide as Hi.
  - destruct (IH (i + size) (chunks ++ [slice array i (i + size)])) as (cs & Heq & Hcat & Hall & Hn1 & Hn2);
      [lia|].
    exists (slice array i (i + size) :: cs). rewrite Heq, <- app_assoc. simpl.
    split; [done|]. unfold slice. replace (i + size - i) with size by lia.
    split. { rewrite Hcat, <- drop_drop. apply take_drop. }
    split. { constructor; [|done]. rewrite length_take, length_drop. lia. }
    destruct cs as [|c cs']; simpl in *; [lia|]. nia.
  - exists []. rewrite app_nil_r. simpl. split; [done|].
    split; [by rewrite drop_ge by lia|]. split; [done|lia].
Qed.

(** X1. For a positive [size], [chunk] returns; its chunks, put end to end,
    are the array; none is empty or longer than [size]; and there are
    [ceil (length array / size)] of them. *)
Theorem chunk_partitions (array : list A) size :
  0 < size ->
  ∃ chunks, chunk array size = Some chunks
    ∧ concat chunks = array
    ∧ Forall (λ c, 0 < length c <= size) chunks
    ∧ length chunks = (length array + size - 1) / size.
Proof.
  intros Hsize. unfold chunk.
  destruct (chunk_loop_spec (S (length array)) array size 0 [] Hsize) as (cs & Heq & Hcat & Hall & Hn1 & Hn2);
    [lia|].
  exists cs. split; [done|]. split; [done|]. split; [done|].
  apply Nat.div_unique with (r := length array + size - 1 - length cs * size); nia.
Qed.

Lemma chunk_loop_zero_size fuel (array : list A) i chunks :
  i < length array -> chunk_loop fuel array 0 i chunks = None.
Proof.
  intros Hi. revert chunks. induction fuel as [|fuel IH]; intros chunks; [done|].
  cbn [chunk_loop]. rewrite bool_decide_eq_true_2 by done. rewrite Nat.add_0_r. apply IH.
Qed.
(** X2. With [size = 0] the index of the loop of [chunk] never moves: on
    an array that is not empty the loop does not end, whatever the fuel. *)
Theorem chunk_zero_size_diverges (array : list A) fuel :
  array ≠ [] -> chunk_loop fuel array 0 0 [] = None.
Proof.
  intros Hne. apply chunk_loop_zero_size. destruct array; [done|cbn; lia].
Qed.

End chunk_proofs.

Lemma chunk_partitions_witness :
  (0 < 2)%nat
  ∧ ∃ chunks, chunk [1; 2; 3; 4; 5] 2 = Some chunks
      ∧ concat chunks = [1; 2; 3; 4; 5]
      ∧ Forall (λ c, (0 < length c <= 2)%nat) chunks
      ∧ length chunks = ((length [1; 2; 3; 4; 5] + 2 - 1) / 2)%nat.
Proof.
  split; [lia|]. apply (chunk_partitions [1; 2; 3; 4; 5] 2). lia.
Defined.

Lemma chunk_zero_size_diverges_witness :
  [1] ≠ ([] : list Z) ∧ chunk_loop 1000 [1] 0 0 [] = None.
Proof.
  split; [discriminate|]. apply (chunk_zero_size_diverges [1] 1000). discriminate.
Defined.

End ChunkProofs.

(** ** fetchParentCasts: one request per hash *)

Module ParentsProofs.
Import Farcaster Parents.

Lemma fetchOne_key up h r : fetchOne up h = Some r -> r.1 = h.
Proof.
  unfold fetchOne. destruct (Aggregator.castById up h) as [[m f]|]; [|done].
  destruct (bool_decide _); [|done]. by intros [= <-].
Qed.

Lemma fill_lookup up batch (acc : gmap string FarcasterCast) h :
  foldl (λ acc r, <[r.1 := r.2]> acc) acc (omap (fetchOne up) batch) !! h
  = if decide (h ∈ batch)
    then match fetchOne up h with Some r => Some r.2 | None => acc !! h end
    else acc !! h.
Proof.
  revert acc. induction batch as [|x batch IH]; intros acc; [done|].
  cbn [omap list_omap]. destruct (fetchOne up x) as [r|] eqn:Hx.
  - cbn [foldl]. rewrite IH. pose proof (fetchOne_key _ _ _ Hx) as Hk.
    destruct (decide (h = x)) as [->|Hne].
    + rewrite Hx, Hk, lookup_insert_eq.
      rewrite (decide_True (P := x ∈ x :: batch)) by left.
      by destruct (decide (x ∈ batch)).
    + rewrite Hk, lookup_insert_ne by done.
      destruct (decide (h ∈ batch)) as [Hin|Hnin].
      * by rewrite decide_True by by right.
      * rewrite decide_False; [done|]. intros [?|?]%elem_of_cons; done.
  - rewrite IH. destruct (decide (h = x)) as [->|Hne].
    + rewrite Hx. rewrite (decide_True (P := x ∈ x :: batch)) by left.
      by destruct (decide (x ∈ batch)).
    + destruct (decide (h ∈ batch)) as [Hin|Hnin].
      * by rewrite decide_True by by right.
      * rewrite decide_False; [done|]. intros [?|?]%elem_of_cons; done.
Qed.

Lemma requested_calls batch : requested (EvCastById <$> batch) = batch.
Proof. induction batch as [|x batch IH]; [done|]. cbn. by f_equal. Qed.

Lemma pauses_calls batch : pauses (EvCastById <$> batch) = [].
Proof. induction batch as [|x batch IH]; [done|]. by cbn. Qed.

Lemma forBatches_spec up batches (acc : gmap string FarcasterCast) :
  requested (forBatches up batches acc).1 = concat batches
  ∧ pauses (forBatches up batches acc).1 = replicate (length batches) 100
  ∧ ∀ h, (forBatches up batches acc).2 !! h
         = if decide (h ∈ concat batches)
           then match fetchOne up h with Some r => Some r.2 | None => acc !! h end
           else acc !! h.
Proof.
  revert acc. induction batches as [|batch rest IH]; intros acc; [done|].
  cbn [forBatches].
  specialize (IH (foldl (λ acc r, <[r.1 := r.2]> acc) acc (omap (fetchOne up) batch))).
  destruct (forBatches up rest _) as [events final]. destruct IH as (Hreq & Hp & Hl).
  cbn [fst snd] in *. split; [|split].
  - unfold requested in *. rewrite omap_app. cbn [omap list_omap]. rewrite Hreq.
    cbn [concat]. f_equal. apply requested_calls.
  - unfold pauses in *. rewrite omap_app. cbn [omap list_omap]. rewrite Hp.
    cbn [length replicate]. fold (pauses (EvCastById <$> batch)).
    by rewrite pauses_calls.
  - intros h. rewrite Hl, fill_lookup. cbn [concat].
    destruct (decide (h ∈ concat rest)) as [Hr|Hr];
      destruct (decide (h ∈ batch)) as [Hb|Hb].
    + rewrite decide_True by (apply elem_of_app; by left).
      by destruct (fetchOne up h).
    + by rewrite decide_True by (apply elem_of_app; by right).
    + by rewrite decide_True by (apply elem_of_app; by left).
    + rewrite decide_False; [done|]. intros [?|?]%elem_of_app; done.
Qed.

(** X3. [fetchParentCasts] asks for every hash once, in the order given,
    pauses 100 ms after each batch of at most ten, and holds a parent for
    exactly the hashes whose request brought a cast. *)
Theorem fetchParentCasts_spec up castHashes :
  ∃ events parents,
    fetchParentCasts up castHashes = Some (events, parents)
    ∧ requested events = castHashes
    ∧ pauses events = replicate ((length castHashes + 10 - 1) / 10) 100
    ∧ ∀ h, parents !! h
           = if decide (h ∈ castHashes) then snd <$> fetchOne up h else None.
Proof.
  unfold fetchParentCasts.
  unfold Chunk.chunk.
  destruct (ChunkProofs.chunk_loop_spec (S (length castHashes)) castHashes
              PARENTS_BATCH_SIZE 0 [])
    as (batches & -> & Hcat & _ & Hn1 & Hn2); [unfold PARENTS_BATCH_SIZE; lia|lia|].
  assert (Hlen : length batches = ((length castHashes + 10 - 1) / 10)%nat).
  { unfold PARENTS_BATCH_SIZE in *.
    apply Nat.div_unique with (r := (length castHashes + 10 - 1 - length batches * 10)%nat);
      lia. }
  cbn [app]. rewrite drop_0 in Hcat.
  destruct (forBatches_spec up batches ∅) as (Hreq & Hp & Hl).
  destruct (forBatches up batches ∅) as [events parents]. cbn [fst snd] in *.
  exists events, parents. split; [done|]. split; [by rewrite Hreq|].
  split. { rewrite Hp. f_equal. exact Hlen. }
  intros h. rewrite Hl, Hcat. destruct (decide (h ∈ castHashes)); [|done].
  by destruct (fetchOne up h).
Qed.

End ParentsProofs.

(** ** The rate-limit cache: a tally is kept for five minutes *)

Module RateLimitCacheProofs.
Import RateLimitCache.

(** X4. After [setCache], [getFromCache] on the same triple returns the
    stored tally while less than 300 s have passed and nothing from then
    on; entries under other keys are read as before. *)
Theorem getFromCache_after_setCache (c : gmap string (Z * (Z * Z)))
    targetFid castHash reactionType data now now' fid' hash' type' :
  getFromCache (setCache c targetFid castHash reactionType data now)
               targetFid castHash reactionType now'
  = (if bool_decide (now' - now < 300000) then Some data else None)
  ∧ (getCacheKey fid' hash' type' ≠ getCacheKey targetFid castHash reactionType ->
     getFromCache (setCache c targetFid castHash reactionType data now)
                  fid' hash' type' now'
     = getFromCache c fid' hash' type' now').
Proof.
  unfold getFromCache, setCache. split.
  - rewrite lookup_insert_eq. cbn [fst snd]. unfold RATE_LIMIT_CACHE_TTL.
    case_bool_decide as H.
    + by rewrite (proj2 (Z.ltb_lt _ _)) by lia.
    + by rewrite (proj2 (Z.ltb_ge _ _)) by lia.
  - intros Hne. by rewrite lookup_insert_ne.
Qed.

Lemma getFromCache_after_setCache_witness :
  getCacheKey 2 "0xbb" "Like" ≠ getCacheKey 1 "0xaa" "Like"
  ∧ getFromCache (setCache ∅ 1 "0xaa" "Like" (3, 1) 1000) 1 "0xaa" "Like" 300999
    = Some (3, 1)
  ∧ getFromCache (setCache ∅ 1 "0xaa" "Like" (3, 1) 1000) 1 "0xaa" "Like" 301000
    = None
  ∧ getFromCache (setCache ∅ 1 "0xaa" "Like" (3, 1) 1000) 2 "0xbb" "Like" 2000
    = getFromCache ∅ 2 "0xbb" "Like" 2000.
Proof.
  assert (Hne : getCacheKey 2 "0xbb" "Like" ≠ getCacheKey 1 "0xaa" "Like")
    by (vm_compute; discriminate).
  split; [exact Hne|].
  split; [apply (getFromCache_after_setCache ∅ 1 "0xaa" "Like" (3, 1) 1000 300999 2 "0xbb" "Like")|].
  split; [apply (getFromCache_after_setCache ∅ 1 "0xaa" "Like" (3, 1) 1000 301000 2 "0xbb" "Like")|].
  by apply (getFromCache_after_setCache ∅ 1 "0xaa" "Like" (3, 1) 1000 2000 2 "0xbb" "Like").
Defined.

End RateLimitCacheProofs.

(** ** RequestQueue: at most three tasks under way, first come first served *)

Module DispatcherProofs.
Import Dispatcher.
#[local] Open Scope nat_scope.

Lemma step_bounded s a :
  running s <= MAX_CONCURRENT_REQUESTS ->
  (queue s ≠ [] -> running s = MAX_CONCURRENT_REQUESTS) ->
  running (step s a) <= MAX_CONCURRENT_REQUESTS
  ∧ (queue (step s a) ≠ [] -> running (step s a) = MAX_CONCURRENT_REQUESTS).
Proof.
  unfold MAX_CONCURRENT_REQUESTS. intros Hr Hq.
  destruct a as [task|]; unfold step, add, finish, processQueue, MAX_CONCURRENT_REQUESTS;
    cbn [queue running started].
  - case_bool_decide as Hfull; cbn [queue running started].
    + split; [done|]. intros _. lia.
    + destruct (queue s) as [|x rest]; cbn [app queue running].
      * split; [lia|done].
      * specialize (Hq ltac:(done)). lia.
  - case_bool_decide as Hzero; [by split|].
    case_bool_decide as Hfull; cbn [queue running]; [lia|].
    destruct (queue s) as [|x rest]; cbn [queue running].
    + split; [lia|done].
    + specialize (Hq ltac:(done)). split; [lia|]. intros _. lia.
Qed.

Lemma step_fifo s a :
  started (step s a) ++ queue (step s a)
  = started s ++ queue s ++ (match a with Enqueue task => [task] | Finish => [] end).
Proof.
  destruct a as [task|]; unfold step, add, finish, processQueue;
    cbn [queue running started].
  - case_bool_decide; cbn [queue running started]; [done|].
    destruct (queue s) as [|x rest]; cbn [app queue started].
    + by rewrite <- app_assoc.
    + by rewrite <- app_assoc.
  - rewrite app_nil_r. case_bool_decide; [done|].
    case_bool_decide; cbn [queue started]; [done|].
    destruct (queue s) as [|x rest]; cbn [queue started]; [done|].
    by rewrite <- app_assoc.
Qed.

(** X5. Whatever the sequence of submissions and completions, the request
    queue never has more than three tasks under way, a task waits only
    while three are under way, and tasks are started in the order in
    which they were submitted. *)
Theorem queue_bounded_fifo (acts : list action) :
  let s := run acts in
  running s <= MAX_CONCURRENT_REQUESTS
  ∧ (queue s ≠ [] -> running s = MAX_CONCURRENT_REQUESTS)
  ∧ started s ++ queue s = enqueued acts.
Proof.
  unfold run. induction acts as [|a acts IH] using rev_ind.
  - cbn. unfold MAX_CONCURRENT_REQUESTS. split; [lia|done].
  - rewrite foldl_app. cbn [foldl]. destruct IH as (Hr & Hq & Hf).
    destruct (step_bounded _ a Hr Hq) as [Hr' Hq'].
    split; [done|]. split; [done|].
    rewrite step_fifo, app_assoc, Hf. unfold enqueued. rewrite omap_app.
    by destruct a.
Qed.

End DispatcherProofs.

(** ** resolveFid: one look-up by name proof *)

Module ResolveProofs.
Import Resolve.

(** X6. [resolveFid] of the simple server asks the hub at most once, for
    the name proof of the lower-cased handle, and never for
    [userDataByUsername]; it returns an identity
    exactly when the handle is not empty and that one answer is ok and
    carries a positive [fid], and then it returns that [fid]. *)
Theorem resolveFid_single_lookup hub username f :
  let proof := UserNameProofByName (Server.toLowerCase username) in
  ((resolveFid hub username).1 = [] ∨ (resolveFid hub username).1 = [proof])
  ∧ ((resolveFid hub username).2 = inr f
     ↔ Farcaster.truthy username = true ∧ hub proof = Answer true (Some f) ∧ 0 < f).
Proof.
  intros proof. unfold resolveFid, fetchWithTimeout. fold proof.
  destruct (Farcaster.truthy username); cbn [negb].
  - destruct (hub proof) as [[] [n|]| |] eqn:Hhub; cbn [ok fid negb fst snd validFid].
    + split; [by right|].
      destruct (decide (n = 0)) as [->|Hn0].
      { cbn. split; [done|]. intros (_ & [= <-] & ?). lia. }
      rewrite (bool_decide_eq_false_2 (n = 0)) by done. cbn [orb].
      case_bool_decide as Hle.
      * split; [done|]. intros (_ & [= <-] & ?). lia.
      * split; [intros [= ->]; split; [done|split; [done|lia]]|].
        by intros (_ & [= ->] & _).
    + split; [by right|]. split; [done|]. by intros (_ & ? & _).
    + split; [by right|]. split; [done|]. by intros (_ & ? & _).
    + split; [by right|]. split; [done|]. by intros (_ & ? & _).
    + split; [by right|]. split; [done|]. by intros (_ & ? & _).
    + split; [by right|]. split; [done|]. by intros (_ & ? & _).
  - cbn. split; [by left|]. split; [done|]. by intros (? & _).
Qed.

End ResolveProofs.

(** ** The profile: the last message of a type wins *)

Module ProfileProofs.
Import Farcaster Profile.

Lemma apply_user_data_field user b f :
  get_field f (apply_user_data user b)
  = if bool_decide (field_of (Snapchain.type b) = Some f) then Snapchain.value b
    else get_field f user.
Proof.
  destruct user, b as [[s|n] v]; unfold apply_user_data, field_of; cbn [Snapchain.type Snapchain.value].
  - repeat (case_bool_decide; [destruct f; done|]). by destruct f.
  - repeat (case_bool_decide; [destruct f; done|]). by destruct f.
Qed.

(** X7. Each profile field ends up with the value of the last user-data
    message of its type, or keeps its initial value when there is none;
    the [fid] is never touched. *)
Theorem read_user_data_last_wins messages user f :
  get_field f (read_user_data user messages)
  = default (get_field f user) (last_value f messages)
  ∧ fid (read_user_data user messages) = fid user.
Proof.
  split; [|apply ServerProofs.read_user_data_fid].
  unfold read_user_data, last_value.
  induction messages as [|m messages IH] using rev_ind; [done|].
  rewrite foldl_app, omap_app. cbn [foldl omap list_omap].
  destruct (Snapchain.userDataBody m) as [b|].
  - rewrite apply_user_data_field. case_bool_decide.
    + by rewrite last_snoc.
    + by rewrite app_nil_r.
  - by rewrite app_nil_r.
Qed.
End ProfileProofs.

(** ** fetchUserData: replies included, and [all] *)

Module MoreServerProofs.
Import Config Farcaster Server.

Lemma processMessages_any user p messages allCasts nonReplyCasts :
  processMessages user p messages allCasts nonReplyCasts
  = (allCasts ++ served user [messages],
     if includeReplies p then nonReplyCasts
     else nonReplyCasts ++ filter (λ c, topLevel c) (served user [messages])).
Proof.
  destruct (includeReplies p) eqn:Hrep;
    [|by apply ServerProofs.processMessages_top_level].
  unfold served. cbn [concat]. rewrite app_nil_r.
  revert allCasts. induction messages as [|m messages IH]; intros a.
  - cbn. by rewrite app_nil_r.
  - cbn [processMessages omap list_omap].
    destruct (Snapchain.castAddBody m) as [b|]; cbn [fmap option_fmap option_map];
      [|apply IH].
    rewrite Hrep. cbn [negb andb]. rewrite IH. by rewrite <- app_assoc.
Qed.

Lemma paginate_with_replies user p pages allCasts nonReplyCasts :
  includeReplies p = true -> all p = false ->
  ∃ k : nat,
    paginate user p (Some <$> pages) allCasts nonReplyCasts
      = Some (allCasts ++ served user (take k pages), nonReplyCasts)
    ∧ (k = length pages
       ∨ targetLimit p <= Z.of_nat (length (allCasts ++ served user (take k pages)))).
Proof.
  intros Hrep Hall. revert allCasts.
  induction pages as [|messages pages IH]; intros a.
  - exists O. cbn. unfold served. cbn. rewrite app_nil_r. split; [done|by left].
  - rewrite fmap_cons. cbn [paginate]. rewrite processMessages_any, Hrep.
    unfold enough. rewrite Hall, Hrep. cbn [negb andb].
    destruct (targetLimit p <=? _) eqn:Hle.
    + exists 1%nat. cbn [take]. rewrite take_0. split; [done|].
      right. by apply Z.leb_le in Hle.
    + destruct (IH (a ++ served user [messages])) as (k & Heq & Hstop).
      exists (S k). cbn [take]. rewrite (ServerProofs.served_cons user messages (take k pages)).
      rewrite !app_assoc. split; [by rewrite Heq|].
      destruct Hstop as [->|Hstop]; [by left|by right].
Qed.

Lemma paginate_all user p pages allCasts nonReplyCasts :
  all p = true ->
  paginate user p (Some <$> pages) allCasts nonReplyCasts
  = Some (allCasts ++ served user pages,
          if includeReplies p then nonReplyCasts
          else nonReplyCasts ++ filter (λ c, topLevel c) (served user pages)).
Proof.
  intros Hall. revert allCasts nonReplyCasts.
  induction pages as [|messages pages IH]; intros a n.
  - cbn. unfold served. cbn. rewrite !app_nil_r. by destruct (includeReplies p).
  - rewrite fmap_cons. cbn [paginate]. rewrite processMessages_any.
    unfold enough. rewrite Hall. cbn [negb andb]. rewrite IH.
    rewrite (ServerProofs.served_cons user messages pages), filter_app, !app_assoc.
    by destruct (includeReplies p).
Qed.

Lemma fetchUserData_user up f p messages :
  0 < f -> userDataByFid up f = Some messages ->
  ∃ user, fid user = f
    ∧ fetchUserData up (inl f) p
      = match paginate user p (castsByFid up f (reverse p) (pageSize p)) [] [] with
        | None => inl CastsFailed
        | Some (allCasts, nonReplyCasts) =>
            inr (user, applyLimit p (if includeReplies p then allCasts else nonReplyCasts))
        end.
Proof.
  intros Hf Hud. unfold fetchUserData.
  rewrite bool_decide_eq_false_2 by lia. rewrite Hud.
  set (user0 := read_user_data (User f "" "" "" "" "" "" "" "") messages).
  set (user := if truthy (username user0) then user0 else _).
  assert (Hfid : fid user = f).
  { subst user. destruct (truthy (username user0)); simpl;
      unfold user0; by rewrite ServerProofs.read_user_data_fid. }
  exists user. split; [done|]. by rewrite Hfid.
Qed.

(** X8. With [includeReplies] and a positive [limit] (no [all]),
    [fetchUserData] of the simple server returns the first
    [min limit 1000] casts that the hub serves, replies included, in the
    order served. *)
Theorem fetchUserData_with_replies up f L so messages pages :
  0 < f -> 0 < L ->
  let p := Params (Some L) true false so in
  userDataByFid up f = Some messages ->
  castsByFid up f (reverse p) (pageSize p) = Some <$> pages ->
  ∃ user,
    fetchUserData up (inl f) p
    = inr (user, take (Z.to_nat (Z.min L 1000)) (served user pages)).
Proof.
  intros Hf HL p Hud Hpages.
  destruct (fetchUserData_user up f p messages Hf Hud) as (user & Hfid & ->).
  rewrite Hpages.
  destruct (paginate_with_replies user p pages [] []) as (k & -> & Hstop); [done|done|].
  exists user. cbn [app includeReplies p]. f_equal. f_equal.
  unfold applyLimit. cbn [limit all p]. rewrite bool_decide_eq_false_2 by lia.
  cbn [negb andb]. replace (Z.max 1 (Z.min L 1000)) with (Z.min L 1000) by lia.
  destruct Hstop as [->|Hstop]; [by rewrite (take_ge pages) by lia|].
  rewrite <- (take_drop k pages) at 2. rewrite ServerProofs.served_app.
  rewrite take_app_le; [done|].
  unfold targetLimit in Hstop. cbn [all limit p] in Hstop.
  rewrite bool_decide_eq_false_2 in Hstop by lia. cbn [app] in Hstop. lia.
Qed.

(** X9. With [all], [fetchUserData] of the simple server asks for pages of
    1000 and returns every cast served (every top-level cast when replies
    are not included), whatever the [limit]. *)
Theorem fetchUserData_all_mode up f lim rep so messages pages :
  0 < f ->
  let p := Params lim rep true so in
  userDataByFid up f = Some messages ->
  castsByFid up f (reverse p) 1000 = Some <$> pages ->
  ∃ user,
    fetchUserData up (inl f) p
    = inr (user, if rep then served user pages
                 else filter (λ c, topLevel c) (served user pages)).
Proof.
  intros Hf p Hud Hpages.
  destruct (fetchUserData_user up f p messages Hf Hud) as (user & Hfid & ->).
  change (pageSize p) with 1000. rewrite Hpages, paginate_all by done.
  exists user. cbn [includeReplies p app]. f_equal. f_equal.
  unfold applyLimit. cbn [limit all p]. cbn [negb andb].
  by destruct lim, rep.
Qed.

Lemma fetchUserData_with_replies_witness :
  let up := Fixtures.hub [Fixtures.interleaved] in
  0 < 1 ∧ 0 < 3
  ∧ ∃ user, fetchUserData up (inl 1) (Params (Some 3) true false None)
            = inr (user, take (Z.to_nat (Z.min 3 1000)) (served user [Fixtures.interleaved])).
Proof.
  intros up. split; [lia|]. split; [lia|].
  apply (fetchUserData_with_replies up 1 3 None [] [Fixtures.interleaved]);
    [lia|lia|reflexivity|reflexivity].
Defined.

Lemma fetchUserData_all_mode_witness :
  let up := Fixtures.hub [Fixtures.interleaved] in
  0 < 1
  ∧ ∃ user, fetchUserData up (inl 1) (Params (Some 3) false true None)
            = inr (user, filter (λ c, topLevel c) (served user [Fixtures.interleaved])).
Proof.
  intros up. split; [lia|].
  apply (fetchUserData_all_mode up 1 (Some 3) false None [] [Fixtures.interleaved]);
    [lia|reflexivity|reflexivity].
Defined.

End MoreServerProofs.

(** ** The circuit breaker: polling and independence of endpoints *)

Module MoreRequestQueueProofs.
Import Config RequestQueue Polling.

Lemma start_open q endpoint now :
  failureThreshold <= default 0 (failures q !! endpoint) ->
  now - default 0 (lastFailureTime q !! endpoint) < resetTimeout ->
  start q endpoint now = (false, record_failure q endpoint now).
Proof.
  intros Hf Ht. unfold start, isCircuitOpen.
  rewrite (proj2 (Z.leb_le _ _)) by done.
  by rewrite (proj2 (Z.ltb_lt _ _)) by done.
Qed.

(** X10. An open circuit stays open under polling: every rejected dispatch
    counts as a failure and restarts the clock, so if each dispatch comes
    less than [resetTimeout] after the one before, none is ever admitted. *)
Theorem polling_keeps_circuit_open q endpoint times :
  failureThreshold <= default 0 (failures q !! endpoint) ->
  spaced (default 0 (lastFailureTime q !! endpoint)) times ->
  Forall (λ admitted, admitted = false) (poll q endpoint times).
Proof.
  revert q. induction times as [|now rest IH]; intros q Hf Hs; [constructor|].
  destruct Hs as [Hnow Hrest]. cbn [poll]. rewrite start_open by done.
  constructor; [done|]. apply IH.
  - destruct (RequestQueueProofs.record_failure_lookup q endpoint now) as [-> _].
    cbn. lia.
  - destruct (RequestQueueProofs.record_failure_lookup q endpoint now) as [_ ->].
    done.
Qed.

Lemma admission_by_lookups q q' endpoint t :
  failures q' !! endpoint = failures q !! endpoint ->
  lastFailureTime q' !! endpoint = lastFailureTime q !! endpoint ->
  (start q' endpoint t).1 = (start q endpoint t).1.
Proof.
  intros Hf Hl. rewrite !RequestQueueProofs.start_admits. f_equal.
  unfold isCircuitOpen. rewrite Hf, Hl.
  destruct (failureThreshold <=? _); [|done].
  destruct (_ <? resetTimeout); [done|].
  by destruct (_ <? resetTimeout + halfOpenTimeout).
Qed.

Lemma start_lookups q endpoint other now :
  endpoint ≠ other ->
  failures (start q endpoint now).2 !! other = failures q !! other
  ∧ lastFailureTime (start q endpoint now).2 !! other = lastFailureTime q !! other.
Proof.
  intros Hne. unfold start, isCircuitOpen.
  destruct (failureThreshold <=? _); [|done].
  destruct (_ <? resetTimeout).
  - cbn. by rewrite !lookup_insert_ne.
  - destruct (_ <? resetTimeout + halfOpenTimeout); cbn; [done|].
    by rewrite lookup_insert_ne.
Qed.

(** X11. The circuit breaker keeps its endpoints apart: a dispatch, a
    success or a failure on one endpoint does not change whether a
    request to another endpoint is admitted. *)
Theorem endpoints_independent q endpoint other now t :
  endpoint ≠ other ->
  (start (start q endpoint now).2 other t).1 = (start q other t).1
  ∧ (start (record_success q endpoint) other t).1 = (start q other t).1
  ∧ (start (record_failure q endpoint now) other t).1 = (start q other t).1.
Proof.
  intros Hne. split; [|split].
  - destruct (start_lookups q endpoint other now Hne) as [Hf Hl].
    by apply admission_by_lookups.
  - apply admission_by_lookups; cbn; [by rewrite lookup_insert_ne|done].
  - apply admission_by_lookups; cbn; by rewrite lookup_insert_ne.
Qed.

Lemma polling_keeps_circuit_open_witness :
  let q := Nat.iter 5 (λ q, record_failure q "castsByFid" 0) init in
  failureThreshold <= default 0 (failures q !! "castsByFid")
  ∧ spaced (default 0 (lastFailureTime q !! "castsByFid")) [20000; 40000; 60000; 80000]
  ∧ Forall (λ admitted, admitted = false) (poll q "castsByFid" [20000; 40000; 60000; 80000]).
Proof.
  intros q.
  assert (H1 : failureThreshold <= default 0 (failures q !! "castsByFid"))
    by (vm_compute; discriminate).
  assert (H2 : spaced (default 0 (lastFailureTime q !! "castsByFid"))
                 [20000; 40000; 60000; 80000])
    by (vm_compute; repeat split).
  split; [exact H1|]. split; [exact H2|].
  exact (polling_keeps_circuit_open q "castsByFid" [20000; 40000; 60000; 80000] H1 H2).
Defined.

Lemma endpoints_independent_witness :
  let q := Nat.iter 5 (λ q, record_failure q "castsByFid" 0) init in
  "castsByFid" ≠ "userDataByFid"
  ∧ (start q "castsByFid" 1000).1 = false
  ∧ (start (start q "castsByFid" 1000).2 "userDataByFid" 2000).1
    = (start q "userDataByFid" 2000).1.
Proof.
  intros q.
  assert (Hne : "castsByFid" ≠ "userDataByFid") by discriminate.
  split; [exact Hne|]. split; [reflexivity|].
  exact (proj1 (endpoints_independent q "castsByFid" "userDataByFid" 1000 2000 Hne)).
Defined.

End MoreRequestQueueProofs.

(** ** CacheManager: what every sequence of calls keeps *)

Module CacheRunsProofs.
Import Config CacheManager CacheRuns.
#[local] Arguments total : simpl never.

Section runs_proofs.
Context {V : Type}.
Variable jsonLength : V -> Z.
Variable generateETag : V -> string.
Hypothesis jsonLength_nonneg : ∀ d, 0 <= jsonLength d.

Implicit Types (m : list (string * entry V)) (c : t V) (e : entry V).

Lemma total_cons k e m :
  total jsonLength ((k, e) :: m) = jsonLength (data e) + total jsonLength m.
Proof. done. Qed.

Lemma total_nonneg m : 0 <= total jsonLength m.
Proof using jsonLength_nonneg.
  induction m as [|[k e] m IH]; [done|]. rewrite total_cons.
  specialize (jsonLength_nonneg (data e)). lia.
Qed.








End runs_proofs.

Section overwrite.
Context {V : Type}.
Variable jsonLength : V -> Z.
Variable generateETag : V -> string.

Lemma total_replace k (e old : entry V) m :
  map_get k m = Some old ->
  length (map_set k e m) = length m
  ∧ total jsonLength (map_set k e m)
    = total jsonLength m - jsonLength (data old) + jsonLength (data e).
Proof.
  induction m as [|[k' e'] m IH]; [done|]. cbn [map_get map_set].
  destruct (decide (k = k')) as [->|Hne].
  - intros [= ->]. unfold total. cbn. split; [done|lia].
  - intros Hg. destruct (IH Hg) as [Hl Ht]. unfold total in *. cbn.
    rewrite Hl, Ht. split; [done|lia].
Qed.

(** X13. Writing a key that is already present, with no eviction, replaces
    the entry and adds the new length to [size] without taking off the
    old one: the counter moves away from the content by the length of the
    payload replaced. *)
Theorem overwrite_adds_to_counter (c : t V) key d ttl now old :
  map_get key (cache c) = Some old ->
  must_evict c (jsonLength d) = false ->
  let c' := set jsonLength generateETag c key d ttl now in
  length (cache c') = length (cache c)
  ∧ size c' = size c + jsonLength d
  ∧ size c' - total jsonLength (cache c')
    = size c - total jsonLength (cache c) + jsonLength (data old).
Proof.
  intros Hold Hm c'. subst c'. unfold set.
  assert (evict jsonLength (length (cache c)) (jsonLength d) c = c) as ->.
  { destruct (length (cache c)); cbn [evict]; [done|]. by rewrite Hm. }
  cbn. destruct (total_replace key (Entry d now (generateETag d)) old (cache c) Hold)
    as [Hl Ht].
  rewrite Hl, Ht. cbn. split; [done|]. split; [done|lia].
Qed.

End overwrite.


Lemma overwrite_adds_to_counter_witness :
  let c := set Z.abs (λ _, "") empty "a" 5 60000 0 in
  let c' := set Z.abs (λ _, "") c "a" 7 60000 10 in
  map_get "a" (cache c) = Some (Entry 5 0 "")
  ∧ must_evict c (Z.abs 7) = false
  ∧ length (cache c') = 1%nat ∧ size c' = 12
  ∧ size c' - total Z.abs (cache c') = size c - total Z.abs (cache c) + 5.
Proof.
  intros c c'.
  destruct (overwrite_adds_to_counter Z.abs (λ _, "") c "a" 7 60000 10 (Entry 5 0 ""))
    as (Hl & Hs & Hd); [reflexivity|reflexivity|].
  split; [reflexivity|]. split; [reflexivity|]. split; [exact Hl|].
  split; [exact Hs|exact Hd].
Defined.

End CacheRunsProofs.

(** ** BatchProcessor: items and settlements *)

Module SettlementProofs.
Import BatchProcessor Settlement.
Section settlement_proofs.
Context {T : Type}.
Implicit Types (s : t T) (a : action T) (o : outcome T).
#[local] Open Scope nat_scope.

Lemma process_accounting s :
  processed (process s) ++ items (queue (process s)) = processed s ++ items (queue s).
Proof.
  unfold process. destruct (_ || _); [done|]. cbn. by rewrite app_nil_r.
Qed.

Lemma settle_accounting s p o :
  processed (settle s p o) = processed s ∧ queue (settle s p o) = queue s
  ∧ invoked (settle s p o) = invoked s.
Proof. unfold settle. by destruct (promises s !! p) as [[?|]|]. Qed.

Lemma process_invoked s : invoked (process s) = invoked s.
Proof. unfold process. by destruct (_ || _). Qed.

Lemma step_accounting s a :
  processed s ++ items (queue s) = invoked s ->
  processed (step s a) ++ items (queue (step s a)) = invoked (step s a).
Proof.
  intros H. destruct a as [k| |p o| |p o|]; cbn [step].
  - unfold add. destruct (bool_decide _); cbn.
    + by rewrite process_accounting, process_invoked.
    + unfold items in *. rewrite fmap_app, app_assoc, H. done.
  - unfold resume. destruct (blocked s); [done|]. cbn.
    unfold items in *. rewrite fmap_app, app_assoc, H. done.
  - by destruct (settle_accounting s p o) as (-> & -> & ->).
  - by rewrite process_accounting, process_invoked.
  - by destruct (settle_accounting s p o) as (-> & -> & ->).
  - done.
Qed.

(** X14. In every run of the batch processor the producers called are,
    in order, the items handed to [processSingleItem] followed by the
    items still queued: each request whose producer ran is also processed
    as an item once its batch is taken. *)
Theorem batch_items_accounted (acts : list (action T)) :
  let s := run init acts in
  processed s ++ items (queue s) = invoked s.
Proof.
  unfold run. induction acts as [|a acts IH] using rev_ind; [done|].
  rewrite foldl_app. cbn [foldl]. by apply step_accounting.
Qed.

Lemma step_other s a p x :
  promises s !! p = Some x ->
  settlement_for p a = None ∨ is_Some x ->
  promises (step s a) !! p = Some x.
Proof.
  intros Hp Hs.
  assert (Hsettle : ∀ p' o, (p' ≠ p ∨ is_Some x) -> promises (settle s p' o) !! p = Some x).
  { intros p' o Hc. unfold settle. destruct (promises s !! p') as [[?|]|] eqn:Hp'; [done| |done].
    cbn. destruct Hc as [Hne|[y ->]].
    - by rewrite list_lookup_insert_ne.
    - destruct (decide (p' = p)) as [->|Hne]; [congruence|].
      by rewrite list_lookup_insert_ne. }
  assert (Hbody : ∀ s' k, promises s' !! p = Some x -> promises (add_body s' k) !! p = Some x).
  { intros s' k H. unfold add_body. cbn. rewrite lookup_app_l; [done|].
    by apply lookup_lt_Some in H. }
  assert (Hproc : promises (process s) = promises s).
  { unfold process. by destruct (_ || _). }
  destruct a as [k| |p' o| |p' o|]; cbn [step].
  - unfold add. destruct (bool_decide _); [cbn; by rewrite Hproc|by apply Hbody].
  - unfold resume. destruct (blocked s); [done|]. by apply Hbody.
  - apply Hsettle. destruct Hs as [Hs|Hs]; [|by right]. left.
    cbn in Hs. by case_bool_decide.
  - by rewrite Hproc.
  - apply Hsettle. destruct Hs as [Hs|Hs]; [|by right]. left.
    cbn in Hs. by case_bool_decide.
  - done.
Qed.

Lemma run_settled s acts p o :
  promises s !! p = Some (Some o) -> promises (run s acts) !! p = Some (Some o).
Proof.
  unfold run. revert s. induction acts as [|a acts IH]; intros s Hp; [done|].
  cbn [foldl]. apply IH. apply step_other; [done|right; by eexists].
Qed.

(** X15. A pending promise of the batch processor ends with the first
    settlement addressed to it, be it from its producer or from
    [processSingleItem]; later ones have no effect. *)
Theorem promise_takes_first_settlement s (acts : list (action T)) p :
  promises s !! p = Some None ->
  promises (run s acts) !! p = Some (first_settlement p acts).
Proof.
  unfold first_settlement. revert s. induction acts as [|a acts IH]; intros s Hp; [done|].
  cbn [omap list_omap]. destruct (settlement_for p a) as [o|] eqn:Ha.
  - cbn [head]. change (run s (a :: acts)) with (run (step s a) acts).
    apply run_settled.
    assert (step s a = settle s p o) as ->.
    { destruct a as [k| |p' o'| |p' o'|]; cbn in Ha; try done;
        case_bool_decide; by simplify_eq. }
    by apply BatchProcessorProofs.settle_pending.
  - change (run s (a :: acts)) with (run (step s a) acts). apply IH.
    apply step_other; [done|by left].
Qed.

End settlement_proofs.

Lemma promise_takes_first_settlement_witness :
  let s := run (T := Z * Z) init [Add "1:0xaa"; Add "1:0xbb"] in
  promises s !! 1%nat = Some None
  ∧ promises (run s [ProducerSettles 0 (Fulfilled (3, 1)); TimerFires;
                     ItemSettles 1 (Rejected "failed");
                     ProducerSettles 1 (Fulfilled (9, 9))]) !! 1%nat
    = Some (Some (Rejected "failed")).
Proof.
  intros s. split; [reflexivity|].
  apply (promise_takes_first_settlement s
           [ProducerSettles 0 (Fulfilled (3, 1)); TimerFires;
            ItemSettles 1 (Rejected "failed");
            ProducerSettles 1 (Fulfilled (9, 9))] 1%nat).
  reflexivity.
Defined.

End SettlementProofs.

(** ** fetchWithRetry and the circuit breaker *)

Module MoreFetchProofs.
Import Config Fetch.

#[local] Arguments includes : simpl never.
#[local] Arguments failed_message : simpl never.

Lemma includes_append sub a b : includes sub b = true -> includes sub (a +:+ b) = true.
Proof.
  intros Hb. induction a as [|c a IH]; [done|].
  change (String c a +:+ b) with (String c (a +:+ b)).
  change (includes sub (String c (a +:+ b)))
    with (if String.prefix sub (String c (a +:+ b)) then true else includes sub (a +:+ b)).
  destruct (String.prefix sub (String c (a +:+ b))); [reflexivity|exact IH].
Qed.

Lemma mention_is_retryable status statusText errorText :
  includes "429" errorText = true ->
  retryable (NotOk status statusText errorText) = true.
Proof.
  intros H. cbn [retryable]. apply orb_true_iff. right.
  unfold failed_message. by repeat apply includes_append.
Qed.

(** X16. A failed answer whose body merely contains the text 429 is
    retried like a rate-limited one: after one second the request goes
    out again. *)
Theorem mention_of_429_is_retried upstream url status statusText errorText :
  upstream 0 = NotOk status statusText errorText ->
  includes "429" errorText = true ->
  ∃ tr r, fetchWithRetry retry_fuel upstream url 0
          = Some (EvFetch url 0 :: EvSleep 1000 :: EvFetch url 1 :: tr, r).
Proof.
  intros Hup Hinc.
  destruct (FetchProofs.fetchWithRetry_shape retry_fuel upstream url 0)
    as (n & Heq & Hle & Hall & Hlast).
  { unfold MAX_RETRIES. lia. }
  { unfold retry_fuel, MAX_RETRIES. lia. }
  destruct n as [|n].
  - exfalso. destruct Hlast as [Hl|Hl]; [done|].
    change (0 + Z.of_nat 0) with 0 in Hl.
    rewrite Hup, mention_is_retryable in Hl; done.
  - rewrite Heq. cbn [retry_trace].
    destruct n; cbn [retry_trace]; eauto.
Qed.

(** X17. An admitted request counts once for the circuit breaker, however
    many retries it took: a success sets the failure count of its
    endpoint to zero, a failure adds one to it and stamps the time. *)
Theorem retries_count_once q upstream url now fin :
  (RequestQueue.start q url now).1 = true ->
  ∃ tr r q',
    fetchWithTimeout q upstream url now fin = Some (tr, r, q')
    ∧ RequestQueue.failures q' !! url
      = Some (match r with
              | Resolved => 0
              | Thrown _ =>
                  default 0 (RequestQueue.failures (RequestQueue.start q url now).2 !! url) + 1
              end)
    ∧ (r ≠ Resolved -> RequestQueue.lastFailureTime q' !! url = Some fin).
Proof.
  intros Hadm. unfold fetchWithTimeout.
  destruct (RequestQueue.start q url now) as [admitted q1]. cbn in Hadm. subst admitted.
  destruct (FetchProofs.fetchWithRetry_total upstream url) as [[tr r] ->].
  destruct r as [|m].
  - do 3 eexists. split; [done|]. cbn. split; [apply lookup_insert_eq|done].
  - do 3 eexists. split; [done|].
    destruct (RequestQueueProofs.record_failure_lookup q1 url fin) as [Hf Hl]. by split.
Qed.

Lemma mention_of_429_is_retried_witness :
  let upstream := λ i : Z, if bool_decide (i = 0)
                           then NotOk 500 "Internal Server Error" "upstream said 429"
                           else Ok in
  includes "429" "upstream said 429" = true
  ∧ ∃ tr r, fetchWithRetry retry_fuel upstream "castsByFid" 0
            = Some (EvFetch "castsByFid" 0 :: EvSleep 1000 :: EvFetch "castsByFid" 1 :: tr, r).
Proof.
  intros upstream. split; [reflexivity|].
  apply (mention_of_429_is_retried upstream "castsByFid" 500 "Internal Server Error"
           "upstream said 429"); reflexivity.
Defined.

Lemma retries_count_once_witness :
  let upstream := λ _ : Z, NotOk 429 "Too Many Requests" "" in
  (RequestQueue.start RequestQueue.init "castsByFid" 0).1 = true
  ∧ ∃ tr r q',
      fetchWithTimeout RequestQueue.init upstream "castsByFid" 0 7100 = Some (tr, r, q')
      ∧ RequestQueue.failures q' !! "castsByFid"
        = Some (match r with Resolved => 0 | Thrown _ => 0 + 1 end).
Proof.
  intros upstream. split; [reflexivity|].
  destruct (retries_count_once RequestQueue.init upstream "castsByFid" 0 7100)
    as (tr & r & q' & Heq & Hf & _); [reflexivity|].
  exists tr, r, q'. split; [exact Heq|exact Hf].
Defined.

End MoreFetchProofs.

(** ** fetchCasts: reactions and parents *)

Module EnrichmentProofs.
Import Farcaster Aggregator Enrichment.

Lemma page_ok_nil up q ids : page_ok up q ids [] [] ids.
Proof.
  split; try done.
  - by destruct (wanted q).
  - intros h. split; [by left|]. intros [?|(_ & c & Hc & _)]; [done|].
    by apply elem_of_nil in Hc.
Qed.

Lemma page_ok_trans up q ids calls1 new1 ids1 calls2 new2 ids2 :
  page_ok up q ids calls1 new1 ids1 ->
  page_ok up q ids1 calls2 new2 ids2 ->
  page_ok up q ids (calls1 ++ calls2) (new1 ++ new2) ids2.
Proof.
  intros [R1 P1 T1 L1 O1 N1 I1] [R2 P2 T2 L2 O2 N2 I2]. split.
  - unfold reaction_calls in *. rewrite omap_app, R1, R2.
    destruct (wanted q); [by rewrite fmap_app|done].
  - unfold parent_calls in *. by rewrite omap_app, P1, P2.
  - intros H. apply Forall_app. auto.
  - intros H. apply Forall_app. auto.
  - intros H. apply Forall_app. auto.
  - auto.
  - intros h. rewrite I2, I1. split.
    + intros [[?|(? & c & Hc & ?)]|(? & c & Hc & ?)]; [by left|right..];
        (split; [done|]); exists c; (split; [|done]); apply elem_of_app; auto.
    + intros [?|(? & c & [Hc|Hc]%elem_of_app & ?)]; [by left; left|left; right|right];
        (split; [done|]); by exists c.
Qed.

Lemma add_id_NoDup h ids : NoDup ids -> NoDup (add_id h ids).
Proof.
  intros Hnd. unfold add_id. case_bool_decide as Hin; [done|].
  apply NoDup_app. split; [done|]. split; [|apply NoDup_singleton].
  intros x Hx ->%list_elem_of_singleton. done.
Qed.

Lemma add_id_elem h ids x : x ∈ add_id h ids ↔ x ∈ ids ∨ x = h.
Proof.
  unfold add_id. case_bool_decide as Hin.
  - split; [by left|]. by intros [?| ->].
  - rewrite elem_of_app, list_elem_of_singleton. done.
Qed.

Lemma processPage_ok up q fid messages ids :
  page_ok up q ids (processPage up q fid messages ids).1.1
          (processPage up q fid messages ids).1.2
          (processPage up q fid messages ids).2.
Proof.
  revert ids. induction messages as [|m rest IH]; intros ids; cbn [processPage].
  { apply page_ok_nil. }
  destruct (Snapchain.castAddBody m) as [b|] eqn:Hb; [|apply IH].
  set (c := processCast m fid).
  destruct (negb (Stream.includeReplies q) && truthy_opt (parentHash c)) eqn:Hskip;
    [apply IH|].
  set (ids1 := if Stream.includeParents q && truthy_opt (parentHash c)
               then add_id (default "" (parentHash c)) ids else ids).
  specialize (IH ids1).
  destruct (processPage up q fid rest ids1) as [[calls casts] ids'] eqn:Hrest.
  cbn [fst snd] in IH.
  set (c' := if wanted q
             then withReactions c (fetchCastReactions up (hash c) (author_fid c))
             else c).
  assert (Hone : page_ok up q ids
                   (if wanted q then [CastReactions (hash c) (author_fid c)] else [])
                   [c'] ids1).
  { subst c'. split.
    - by destruct (wanted q).
    - by destruct (wanted q).
    - intros ->. repeat constructor. cbn. by destruct (fetchCastReactions _ _ _).
    - intros ->. by repeat constructor.
    - intros Hr. rewrite Hr in Hskip. cbn in Hskip.
      repeat constructor. unfold is_reply. by destruct (wanted q).
    - intros Hnd. subst ids1. destruct (_ && _); [by apply add_id_NoDup|done].
    - intros h. subst ids1.
      assert (Hp : is_reply (if wanted q
                     then withReactions c (fetchCastReactions up (hash c) (author_fid c))
                     else c) = truthy_opt (parentHash c)
                   ∧ parent_of (if wanted q
                     then withReactions c (fetchCastReactions up (hash c) (author_fid c))
                     else c) = default "" (parentHash c))
        by by destruct (wanted q).
      destruct Hp as [Hp1 Hp2].
      destruct (Stream.includeParents q); cbn [andb].
      + destruct (truthy_opt (parentHash c)) eqn:Ht.
        * rewrite add_id_elem. split.
          -- intros [?| ->]; [by left|right]. split; [done|].
             eexists. split; [apply list_elem_of_singleton; done|]. by rewrite Hp1, Hp2.
          -- intros [?|(_ & x & ->%list_elem_of_singleton & _ & <-)]; [by left|].
             right. by rewrite Hp2.
        * split; [by left|].
          intros [?|(_ & x & ->%list_elem_of_singleton & Hx & _)]; [done|]. congruence.
      + split; [by left|]. by intros [?|(? & _)]. }
  pose proof (page_ok_trans _ _ _ _ _ _ _ _ _ Hone IH) as Hall.
  unfold wanted in *. subst c'.
  destruct (Stream.includeReactions q && negb (Stream.all q)); exact Hall.
Qed.

Lemma fetchPages_ok up q fid pages page casts ids calls casts' ids' :
  fetchPages up q fid pages page casts ids = Some (calls, casts', ids') ->
  ∃ new, casts' = casts ++ new ∧ page_ok up q ids calls new ids'.
Proof.
  revert page casts ids calls casts' ids'.
  assert (Hpage : ∀ page ids calls new ids',
            page_ok up q ids calls new ids' ->
            page_ok up q ids (CastsByFid fid page :: calls) new ids').
  { intros page ids calls new ids' H.
    apply (page_ok_trans up q ids [CastsByFid fid page] [] ids calls new ids');
      [|done]. apply (page_ok_trans _ _ _ [_] [] ids [] [] ids); [|apply page_ok_nil].
    split; try done.
    - by destruct (wanted q).
    - intros h. split; [by left|]. intros [?|(_ & c & Hc & _)]; [done|].
      by apply elem_of_nil in Hc. }
  induction pages as [|p rest IH]; intros page casts ids calls casts' ids';
    cbn [fetchPages].
  - intros [= <- <- <-]. exists []. rewrite app_nil_r. split; [done|].
    apply Hpage, page_ok_nil.
  - destruct p as [messages|]; [|done].
    pose proof (processPage_ok up q fid messages ids) as Hp.
    destruct (processPage up q fid messages ids) as [[calls1 new1] ids1].
    cbn [fst snd] in Hp.
    destruct rest as [|p' rest'].
    { intros [= <- <- <-]. exists new1. split; [done|]. by apply Hpage. }
    destruct (match Stream.targetLimit q with Some _ => _ | None => _ end).
    { intros [= <- <- <-]. exists new1. split; [done|]. by apply Hpage. }
    destruct (fetchPages up q fid (p' :: rest') (S page) (casts ++ new1) ids1)
      as [[[calls2 casts2] ids2]|] eqn:Hrest; [|done].
    intros [= <- <- <-].
    destruct (IH _ _ _ _ _ _ Hrest) as (new2 & -> & H2).
    exists (new1 ++ new2). rewrite app_assoc. split; [done|].
    apply Hpage. by eapply page_ok_trans.
Qed.

Lemma find_parent up ids h :
  (λ r : nat * (string * FarcasterCast), r.2.2)
    <$> list_find (λ p, p.1 = h) (omap (Parents.fetchOne up) ids)
  = if decide (h ∈ ids) then snd <$> Parents.fetchOne up h else None.
Proof.
  induction ids as [|x ids IH]; [done|]. cbn [omap list_omap].
  destruct (Parents.fetchOne up x) as [[k c]|] eqn:Hx.
  - pose proof (ParentsProofs.fetchOne_key _ _ _ Hx) as Hk. cbn in Hk. subst k.
    cbn [list_find]. cbn [fst]. destruct (decide (x = h)) as [->|Hne].
    + rewrite decide_True by left. cbn. by rewrite Hx.
    + rewrite <- option_fmap_compose.
      rewrite (option_fmap_ext _ (λ r : nat * (string * FarcasterCast), r.2.2)) by done.
      rewrite IH. destruct (decide (h ∈ ids)).
      * rewrite decide_True by (by right). done.
      * rewrite decide_False; [done|]. by intros [?|?]%elem_of_cons.
  - rewrite IH. destruct (decide (x = h)) as [->|Hne].
    + rewrite Hx. by repeat destruct (decide _).
    + destruct (decide (h ∈ ids)).
      * rewrite decide_True by (by right). done.
      * rewrite decide_False; [done|]. by intros [?|?]%elem_of_cons.
Qed.

(** X18. [fetchCasts] asks for the reactions of exactly the casts it
    returns, once each and in their order, when [includeReactions] is set
    without [all], and then each cast carries the tally received;
    otherwise it asks for none and every tally is zero. *)
Theorem fetchCasts_reactions up q fid calls casts :
  fetchCasts up q fid = Some (calls, casts) ->
  reaction_calls calls = (if wanted q then (λ e, target (cast e)) <$> casts else [])
  ∧ Forall (λ e, (likes (cast e), recasts (cast e))
                 = if wanted q
                   then fetchCastReactions up (hash (cast e)) (author_fid (cast e))
                   else (0, 0)) casts.
Proof.
  unfold fetchCasts.
  destruct (fetchPages _ _ _ _ _ _ _) as [[[calls1 casts1] ids1]|] eqn:Hp; [|done].
  destruct (fetchPages_ok _ _ _ _ _ _ _ _ _ _ Hp) as (new & Hnew & [R P T L O N I]).
  cbn [app] in Hnew. subst new.
  assert (Htally : ∀ f : FarcasterCast -> enriched, (∀ c, cast (f c) = c) ->
            Forall (λ e, (likes (cast e), recasts (cast e))
                         = if wanted q
                           then fetchCastReactions up (hash (cast e)) (author_fid (cast e))
                           else (0, 0)) (f <$> casts1)).
  { intros f Hf. apply Forall_fmap. destruct (wanted q).
    - eapply Forall_impl; [by apply T|]. intros c Hc. cbn. by rewrite Hf.
    - eapply Forall_impl; [by apply L|]. intros c [H1 H2]. cbn. by rewrite Hf, H1, H2. }
  assert (Hmap : ∀ f : FarcasterCast -> enriched, (∀ c, cast (f c) = c) ->
            (λ e, target (cast e)) <$> (f <$> casts1) = target <$> casts1).
  { intros f Hf. rewrite <- list_fmap_compose. apply list_fmap_ext.
    intros i c _. cbn. by rewrite Hf. }
  destruct (Stream.includeParents q && negb (bool_decide (ids1 = []))).
  - cbn. intros [= <- <-]. split; [|by apply Htally].
    unfold reaction_calls in *. rewrite omap_app, R.
    assert (omap (λ c, match c with CastReactions h f => Some (h, f) | _ => None end)
              (CastById <$> ids1) = []) as ->.
    { clear. by induction ids1. }
    rewrite app_nil_r. destruct (wanted q); [by rewrite Hmap|done].
  - intros [= <- <-]. split; [|by apply Htally].
    rewrite R. destruct (wanted q); [by rewrite Hmap|done].
Qed.

(** X19. [fetchCasts] asks for each parent once: the hashes requested are
    distinct and are those of the parents of the replies returned, only
    with [includeParents]; a reply then carries the cast its request
    brought.  Without [includeReplies] no reply is returned and no parent
    is asked for, whatever [includeParents]. *)
Theorem fetchCasts_parents up q fid calls casts :
  fetchCasts up q fid = Some (calls, casts) ->
  NoDup (parent_calls calls)
  ∧ (∀ h, h ∈ parent_calls calls ↔
          Stream.includeParents q = true
          ∧ ∃ e, e ∈ casts ∧ is_reply (cast e) = true ∧ parent_of (cast e) = h)
  ∧ Forall (λ e, parentCast e
                 = if Stream.includeParents q && is_reply (cast e)
                   then snd <$> Parents.fetchOne up (parent_of (cast e))
                   else None) casts
  ∧ (Stream.includeReplies q = false ->
     parent_calls calls = [] ∧ Forall (λ e, is_reply (cast e) = false) casts).
Proof.
  unfold fetchCasts.
  destruct (fetchPages _ _ _ _ _ _ _) as [[[calls1 casts1] ids1]|] eqn:Hp; [|done].
  destruct (fetchPages_ok _ _ _ _ _ _ _ _ _ _ Hp) as (new & Hnew & [R P T L O N I]).
  cbn [app] in Hnew. subst new.
  specialize (N (NoDup_nil_2)).
  assert (Hids : ∀ h, h ∈ ids1 ↔
            Stream.includeParents q = true
            ∧ ∃ c, c ∈ casts1 ∧ is_reply c = true ∧ parent_of c = h).
  { intros h. rewrite I. split; [intros [H|H]; [by apply elem_of_nil in H|done]|by right]. }
  assert (Hcalls : parent_calls (CastById <$> ids1) = ids1).
  { clear. induction ids1 as [|x l IH]; [done|]. cbn. by f_equal. }
  assert (Htop : Stream.includeReplies q = false -> ids1 = []).
  { intros Hr. destruct ids1 as [|h l]; [done|]. exfalso.
    destruct (proj1 (Hids h)) as (_ & c & Hc & Hrep & _); [left|].
    specialize (O Hr). rewrite Forall_forall in O. specialize (O c Hc). congruence. }
  destruct (Stream.includeParents q) eqn:Hpar; cbn [andb].
  - case_bool_decide as Hnil; cbn [negb].
    + intros [= <- <-]. subst ids1. rewrite P.
      split; [constructor|]. split.
      { intros h. split; [by intros H%elem_of_nil|].
        intros (_ & e & He & Hrep & Hh).
        apply list_elem_of_fmap in He as (c & -> & Hc). cbn in *.
        apply (Hids h). split; [done|]. by exists c. }
      split.
      { apply Forall_fmap, Forall_forall. intros c Hc. cbn.
        destruct (is_reply c) eqn:Hrep; [|done]. exfalso.
        apply (elem_of_nil (parent_of c)), Hids. split; [done|]. by exists c. }
      intros Hr. split; [done|]. apply Forall_fmap. cbn. by apply O.
    + unfold fetchParentCasts. intros [= <- <-].
      assert (Happ : parent_calls (calls1 ++ (CastById <$> ids1))
                     = parent_calls calls1 ++ parent_calls (CastById <$> ids1))
        by apply omap_app.
      rewrite Happ, P, Hcalls. cbn [app].
      split; [done|]. split.
      { intros h. rewrite Hids. split.
        - intros (_ & c & Hc & ? & ?). split; [done|].
          eexists. split; [apply list_elem_of_fmap; exists c; split; [reflexivity|done]|].
          done.
        - intros (_ & e & He & Hrep & Hh).
          apply list_elem_of_fmap in He as (c & -> & Hc). cbn in *.
          split; [done|]. by exists c. }
      split.
      { apply Forall_fmap, Forall_forall. intros c Hc. unfold attach. cbn.
        fold (is_reply c). destruct (is_reply c) eqn:Hrep; [|done].
        fold (parent_of c).
        change (omap _ ids1) with (omap (Parents.fetchOne up) ids1).
        rewrite find_parent. rewrite decide_True; [done|].
        apply Hids. split; [done|]. by exists c. }
      intros Hr. by specialize (Htop Hr).
  - intros [= <- <-]. rewrite P. split; [constructor|]. split.
    { intros h. split; [by intros H%elem_of_nil|]. by intros (? & _). }
    split; [by apply Forall_fmap, Forall_forall|].
    intros Hr. split; [done|]. apply Forall_fmap. cbn. by apply O.
Qed.

Lemma fetchCasts_reactions_witness :
  let up := Upstream (λ _ _ _, [Some [Fixtures.post "gm" 1; Fixtures.reply "re" 2]])
                     (λ _ _, (3, 1)) (λ _, Some (Fixtures.post "parent" 0, 3)) in
  let q := Stream.Query (Some 1) None None None false true true true in
  ∃ calls casts,
    fetchCasts up q 1 = Some (calls, casts)
    ∧ reaction_calls calls = [("0x01", 1); ("0x02", 1)]
    ∧ reaction_calls calls = (λ e, target (cast e)) <$> casts.
Proof.
  intros up q. eexists _, _. split; [reflexivity|]. split; [reflexivity|].
  exact (proj1 (fetchCasts_reactions up q 1 _ _ eq_refl)).
Defined.

Lemma fetchCasts_parents_witness :
  let up := Upstream (λ _ _ _, [Some [Fixtures.post "gm" 1; Fixtures.reply "re" 2]])
                     (λ _ _, (3, 1)) (λ _, Some (Fixtures.post "parent" 0, 3)) in
  let q := Stream.Query (Some 1) None None None false true true true in
  ∃ calls casts,
    fetchCasts up q 1 = Some (calls, casts)
    ∧ parent_calls calls = ["0xparent"]
    ∧ NoDup (parent_calls calls).
Proof.
  intros up q. eexists _, _. split; [reflexivity|]. split; [reflexivity|].
  exact (proj1 (fetchCasts_parents up q 1 _ _ eq_refl)).
Defined.

End EnrichmentProofs.

(** ** The streaming route: posts are numbered and limited *)

Module NumberingProofs.
Import Config Farcaster Stream Numbering.

Lemma headers_app es1 es2 : headers (es1 ++ es2) = headers es1 ++ headers es2.
Proof. apply omap_app. Qed.

Lemma bind_run {A B} (m : M A) (f : A -> M B) t :
  bind m f t
  = match (m t).2 with
    | Value a => ((m t).1.1 ++ (f a (m t).1.2).1.1, (f a (m t).1.2).1.2, (f a (m t).1.2).2)
    | Returned => ((m t).1.1, (m t).1.2, Returned)
    | Threw => ((m t).1.1, (m t).1.2, Threw)
    end.
Proof.
  unfold bind. destruct (m t) as [[es t1] [a| |]]; cbn; [|done..].
  by destruct (f a t1) as [[es' t2] st'].
Qed.

Lemma Numbered_bind {A B} pc lim (post1 : A -> Z -> Prop) (post2 : B -> Z -> Prop)
    (m : M A) (f : A -> M B) :
  Numbered pc lim post1 m ->
  (∀ a fin, post1 a fin -> Numbered fin lim post2 (f a)) ->
  Numbered pc lim post2 (bind m f).
Proof.
  intros Hm Hf t. rewrite bind_run. destruct (Hm t) as (n1 & H1 & L1 & P1).
  destruct ((m t).2) as [a| |] eqn:Hst; unfold numbered; cbn [fst snd].
  - destruct (Hf a _ (P1 a eq_refl) (m t).1.2) as (n2 & H2 & L2 & P2).
    exists (n1 + n2)%nat. rewrite headers_app, H1, H2. split.
    { rewrite Nat2Z.inj_add, seqZ_app by lia. do 2 f_equal. lia. }
    split.
    { intros L HL. destruct (L1 L HL) as [->|?], (L2 L HL) as [->|?]; lia. }
    intros b Hb. rewrite Nat2Z.inj_add, Z.add_assoc. by apply P2.
  - exists n1. split; [done|]. split; [done|]. intros ? [=].
  - exists n1. split; [done|]. split; [done|]. intros ? [=].
Qed.

Lemma Numbered_mute {A} pc lim (m : M A) :
  Mute m -> Numbered pc lim (λ _ fin, fin = pc) m.
Proof.
  intros Hm t. exists 0%nat. rewrite Hm. split; [done|]. split; [by left|].
  intros _ _. lia.
Qed.

Lemma Numbered_after_mute {A B} pc lim (post : B -> Z -> Prop) (m : M A) (f : A -> M B) :
  Mute m -> (∀ a, Numbered pc lim post (f a)) -> Numbered pc lim post (bind m f).
Proof.
  intros Hm Hf. eapply Numbered_bind; [by apply Numbered_mute|].
  intros a fin ->. apply Hf.
Qed.

Lemma Numbered_ret {A} pc lim (post : A -> Z -> Prop) a :
  post a pc -> Numbered pc lim post (ret a).
Proof.
  intros Hp t. exists 0%nat. split; [done|]. split; [by left|].
  intros b [= <-]. by rewrite Z.add_0_r.
Qed.

Lemma Numbered_exit {A} pc lim (post : A -> Z -> Prop) : Numbered pc lim post exit.
Proof. intros t. exists 0%nat. split; [done|]. split; [by left|]. intros ? [=]. Qed.

Lemma Numbered_throw {A} pc lim (post : A -> Z -> Prop) : Numbered pc lim post throw.
Proof. intros t. exists 0%nat. split; [done|]. split; [by left|]. intros ? [=]. Qed.

Lemma Numbered_weaken {A} pc lim (post post' : A -> Z -> Prop) m :
  (∀ a fin, post a fin -> post' a fin) ->
  Numbered pc lim post m -> Numbered pc lim post' m.
Proof.
  intros Hw Hm t. destruct (Hm t) as (n & H1 & H2 & H3).
  exists n. split; [done|]. split; [done|]. intros a Ha. by apply Hw, H3.
Qed.

Lemma Numbered_header pc lim ts :
  (∀ L, lim = Some L -> pc + 1 <= L) ->
  Numbered pc lim (λ _ fin, fin = pc + 1) (writeln (PostHeader (pc + 1) ts)).
Proof.
  intros HL t. exists 1%nat. split; [done|]. split; [right; by apply HL|].
  intros _ _. lia.
Qed.

Lemma Mute_ret {A} (a : A) : Mute (ret a).
Proof. done. Qed.

Lemma Mute_exit {A} : Mute (@exit A).
Proof. done. Qed.

Lemma Mute_line s : Mute (writeln (Line s)).
Proof. done. Qed.

Lemma Mute_request c : Mute (request c).
Proof. done. Qed.

Lemma Mute_bind {A B} (m : M A) (f : A -> M B) :
  Mute m -> (∀ a, Mute (f a)) -> Mute (bind m f).
Proof.
  intros Hm Hf t. rewrite bind_run.
  destruct ((m t).2); cbn [fst snd]; rewrite ?headers_app, Hm; [|done..].
  by rewrite Hf.
Qed.

Lemma Mute_when b m : Mute m -> Mute (when b m).
Proof. by destruct b. Qed.

Lemma Mute_writeAll l : Forall (λ f, is_line f = true) l -> Mute (writeAll l).
Proof.
  induction 1 as [|f l Hf _ IH]; [done|]. cbn [writeAll].
  apply Mute_bind; [|done]. by destruct f.
Qed.

Lemma Mute_lines {X} (g : X -> string) (l : list X) :
  Mute (writeAll (map (λ x, Line (g x)) l)).
Proof. apply Mute_writeAll. by induction l; constructor. Qed.

Section pieces.
Variable abortAt : option nat.
Variable up : upstream.

Lemma Mute_aborted : Mute (aborted abortAt).
Proof. done. Qed.

Lemma Mute_resolve q : Mute (resolve up q).
Proof.
  unfold resolve. destruct (fid q) as [f|].
  - case_bool_decide; [|done]. apply Mute_bind; [apply Mute_line|done].
  - apply Mute_bind; [apply Mute_line|]. intros _.
    apply Mute_bind; [apply Mute_request|]. intros _.
    destruct (resolveFid up _); (apply Mute_bind; [apply Mute_line|done]).
Qed.

Lemma Mute_writeProfile user : Mute (writeProfile user).
Proof.
  unfold writeProfile.
  repeat (apply Mute_bind; [first [apply Mute_line|apply Mute_when, Mute_line]|intros _]).
  apply Mute_line.
Qed.

Lemma Mute_writeReactions cast : Mute (writeReactions up cast).
Proof.
  unfold writeReactions.
  apply Mute_bind; [apply Mute_request|intros _].
  repeat (apply Mute_bind; [apply Mute_line|intros _]). apply Mute_line.
Qed.

Lemma Numbered_emitCast cast pc lim :
  (∀ L, lim = Some L -> pc + 1 <= L) ->
  Numbered pc lim (λ _ fin, fin = pc + 1) (emitCast cast pc).
Proof.
  intros HL. unfold emitCast.
  eapply Numbered_bind; [by apply Numbered_header|].
  intros _ fin ->. apply Numbered_mute.
  apply Mute_bind; [apply Mute_line|intros _].
  apply Mute_bind.
  { apply Mute_when, Mute_bind; [apply Mute_line|intros _]. apply Mute_lines. }
  intros _. apply Mute_bind; [|intros _; apply Mute_line].
  apply Mute_when, Mute_bind; [apply Mute_line|intros _]. apply Mute_lines.
Qed.

Lemma Numbered_forMessages user q messages castCount processedCount :
  processedCount <= castCount ->
  Numbered processedCount (targetLimit q) (λ a fin, a.2 = fin ∧ a.2 <= a.1)
           (forMessages abortAt up user q messages castCount processedCount).
Proof.
  revert castCount processedCount.
  induction messages as [|m rest IH]; intros cc pc Hle; cbn [forMessages].
  { by apply Numbered_ret. }
  apply Numbered_after_mute; [apply Mute_aborted|]. intros [|]; [apply Numbered_exit|].
  destruct (Snapchain.castAddBody m) as [b|]; [|by apply IH].
  destruct (negb (includeReplies q) && _); [by apply IH|].
  destruct (beyond q (cc + 1)) eqn:Hb.
  { apply Numbered_ret. cbn. lia. }
  eapply Numbered_bind.
  { apply Numbered_emitCast. intros L HL. unfold beyond in Hb. rewrite HL in Hb.
    apply Z.ltb_ge in Hb. lia. }
  intros _ fin ->.
  apply Numbered_after_mute; [apply Mute_aborted|]. intros a.
  apply Numbered_after_mute; [apply Mute_when, Mute_writeReactions|]. intros _.
  apply Numbered_after_mute; [apply Mute_aborted|]. intros [|]; [apply Numbered_exit|].
  apply IH. lia.
Qed.

Lemma Numbered_pageLoop user q pages page castCount processedCount :
  processedCount <= castCount ->
  Numbered processedCount (targetLimit q) (λ a fin, a = fin)
           (pageLoop abortAt up user q pages page castCount processedCount).
Proof.
  revert page castCount processedCount.
  induction pages as [|p rest IH]; intros page cc pc Hle.
  - cbn [pageLoop].
    apply Numbered_after_mute; [apply Mute_aborted|]. intros [|]; [apply Numbered_exit|].
    apply Numbered_after_mute; [apply Mute_request|]. intros _. by apply Numbered_ret.
  - cbn [pageLoop].
    apply Numbered_after_mute; [apply Mute_aborted|]. intros [|]; [apply Numbered_exit|].
    apply Numbered_after_mute; [apply Mute_request|]. intros _.
    destruct p as [messages|]; [|apply Numbered_throw].
    eapply Numbered_bind; [by apply Numbered_forMessages|].
    intros [cc' pc'] fin [Hfin Hle']. cbn [fst snd] in *. subst fin.
    destruct (reached q cc'); [by apply Numbered_ret|].
    destruct rest as [|p' rest']; [by apply Numbered_ret|].
    by apply IH.
Qed.

Lemma Numbered_body q :
  Numbered 0 (targetLimit q) (λ _ _, True) (body abortAt up q).
Proof.
  unfold body.
  apply Numbered_after_mute; [apply Mute_aborted|]. intros [|]; [apply Numbered_exit|].
  apply Numbered_after_mute; [apply Mute_resolve|]. intros f.
  apply Numbered_after_mute; [apply Mute_aborted|]. intros [|]; [apply Numbered_exit|].
  apply Numbered_after_mute; [apply Mute_request|]. intros _.
  destruct (userDataByFid up f) as [| |messages]; [apply Numbered_throw| |].
  - apply Numbered_after_mute; [apply Mute_aborted|]. intros [|]; [apply Numbered_exit|].
    apply Numbered_after_mute; [apply Mute_line|]. intros _. apply Numbered_exit.
  - apply Numbered_after_mute; [apply Mute_aborted|]. intros [|]; [apply Numbered_exit|].
    apply Numbered_after_mute; [apply Mute_aborted|]. intros [|]; [apply Numbered_exit|].
    apply Numbered_after_mute; [apply Mute_writeProfile|]. intros _.
    eapply Numbered_bind; [by apply Numbered_pageLoop|].
    intros pc fin _. eapply Numbered_weaken; [|apply Numbered_mute, Mute_when, Mute_line].
    done.
Qed.

Lemma trace_numbered q :
  ∃ n : nat, headers (trace abortAt up q) = seqZ 1 (Z.of_nat n)
    ∧ ∀ L, targetLimit q = Some L -> n = 0%nat ∨ Z.of_nat n <= L.
Proof.
  unfold trace, handler. destruct (Numbered_body q 0%nat) as (n & Hh & HL & _).
  exists n. split; [|exact HL].
  destruct (body abortAt up q 0%nat) as [[es t1] [[]| |]]; cbn [fst snd] in *; [done|done|].
  assert (Hc : Mute (let* a := aborted abortAt in
                     when (negb a) (writeln (Line "Error: request failed")))).
  { apply Mute_bind; [apply Mute_aborted|]. intros a. apply Mute_when, Mute_line. }
  specialize (Hc t1).
  destruct ((let* a := aborted abortAt in _) t1) as [[es' t2] st'].
  cbn [fst snd] in *. by rewrite headers_app, Hc, app_nil_r.
Qed.

End pieces.

(** X20. The posts of a streamed answer are numbered 1, 2, ... without a
    gap, and there are never more of them than the [limit] of the
    request, whenever the consumer disconnects. *)
Theorem stream_numbers_posts abortAt up r events :
  route abortAt up r = StreamText events ->
  ∃ n : nat,
    headers events = seqZ 1 (Z.of_nat n)
    ∧ ∀ L, raw_limit r = Some L -> raw_all r ≠ Some true -> Z.of_nat n <= L.
Proof.
  intros Hroute.
  assert (Hev : events = trace abortAt up (normalize r)
                ∧ ∀ L, raw_limit r = Some L -> 0 < L).
  { assert (HX :
      (if bool_decide (raw_fid r = None)
          && negb (truthy (default "" (raw_username r)))
       then BadRequest "Either fid or username is required"
       else if bool_decide (is_Some (raw_limit r))
               && bool_decide (default 0 (raw_limit r) <= 0)
       then BadRequest "Invalid limit parameter"
       else if negb (bool_decide (raw_sortOrder r = None))
               && negb (bool_decide (raw_sortOrder r = Some "newest"))
               && negb (bool_decide (raw_sortOrder r = Some "oldest"))
       then BadRequest "Invalid sortOrder parameter"
       else StreamText (trace abortAt up (normalize r))) = StreamText events).
    { destruct r as [[?|] [?|] [?|] [?|] [?|] [?|] [?|] [?|]];
        first [exact Hroute|discriminate Hroute]. }
    destruct (bool_decide (raw_fid r = None) && _); [discriminate|].
    destruct (bool_decide (is_Some (raw_limit r)) && _) eqn:Hlim; [discriminate|].
    destruct (negb (bool_decide (raw_sortOrder r = None)) && _ && _); [discriminate|].
    split; [by injection HX|].
    intros L HL. rewrite HL in Hlim.
    rewrite bool_decide_eq_true_2 in Hlim by (by eexists).
    apply bool_decide_eq_false in Hlim. cbn in Hlim. lia. }
  destruct Hev as [-> Hpos].
  destruct (trace_numbered abortAt up (normalize r)) as (n & Hh & HL).
  exists n. split; [done|]. intros L Hraw Hall.
  specialize (Hpos L Hraw).
  destruct (HL L) as [->|?]; [|lia|done].
  unfold targetLimit, normalize. cbn. rewrite bool_decide_eq_false_2 by done.
  rewrite Hraw. by rewrite bool_decide_eq_false_2 by lia.
Qed.

Lemma stream_numbers_posts_witness :
  let r := RawQuery (Some 1) None (Some 2) None None None None None in
  let up := Fixtures.streamHub
              [[Fixtures.post "one" 1; Fixtures.post "two" 2; Fixtures.post "three" 3]] in
  ∃ events, route None up r = StreamText events
    ∧ ∃ n : nat, headers events = seqZ 1 (Z.of_nat n) ∧ Z.of_nat n <= 2.
Proof.
  intros r up. eexists. split; [reflexivity|].
  destruct (stream_numbers_posts None up r _ eq_refl) as (n & Hh & HL).
  exists n. split; [exact Hh|]. apply HL; [reflexivity|discriminate].
Defined.

End NumberingProofs.

(** ** The abort and the batch timer *)

Module ReactionsProofs.
Import Reactions.


Lemma upstreams_app l1 l2 : upstreams (l1 ++ l2) = upstreams l1 ++ upstreams l2.
Proof. apply omap_app. Qed.






















Lemma enrichment_call e castHash targetFid :
  enrichment e = Some (castHash, targetFid) ->
  e = Stream.EvCall (Stream.CastReactions castHash targetFid).
Proof. destruct e as [|[]|]; cbn; try done. by intros [= -> ->]. Qed.




Section server.
Variable generateETag : tally -> string.




End server.




End ReactionsProofs.
